(** * A shallow embedding of the readline input engine

    The development follows the Go sources: the history manager
    ([internal/history/sources.go]), the completion engine's buffer hand-off
    and incremental search, the alias detection of completion groups
    ([internal/completion/group.go]), the right prompt
    ([internal/ui/prompt.go]) and the main read loop of the shell.

    Go values are represented as follows.
    - [int] is a 64-bit signed integer: a [Z] with the wrap-around of the
      additions and subtractions written out ([add64], [sub64]).
    - [string] is a sequence of bytes: Rocq's [string].
    - [rune] is a [Z]; [[]rune] (the type [core.Line]) is [list rune]; the
      conversions [string(runes)] and [[]rune(s)] are UTF-8 encoding and
      decoding, as the Go language defines them.
    - a map is a [gmap]; the order in which [range] visits a map is not
      specified by Go, so a function that ranges over a map takes the order
      of the visit as an argument.
    - a nil pointer or nil interface is [None].
    - a run-time panic is the [Panic] result. *)

From Stdlib Require Import ZArith Lia List Bool Ascii String.
From stdpp Require Import base option list gmap strings.
Import ListNotations.

Local Open Scope Z_scope.

(** ** Results of code that can panic *)

Inductive res (A : Type) : Type :=
| Ok (a : A)
| Panic (msg : string).
Arguments Ok {A} a.
Arguments Panic {A} msg.

#[global] Instance res_ret : MRet res := fun _ a => Ok a.
#[global] Instance res_bind : MBind res := fun _ _ k r =>
  match r with
  | Ok a => k a
  | Panic m => Panic m
  end.

(** ** Go integers *)

Module GoInt.

Definition max_int : Z := 2 ^ 63 - 1.
Definition min_int : Z := - 2 ^ 63.

(** Two's complement wrap-around of a 64-bit signed integer. *)
Definition wrap64 (z : Z) : Z := (z + 2 ^ 63) mod 2 ^ 64 - 2 ^ 63.

Definition add64 (a b : Z) : Z := wrap64 (a + b).
Definition sub64 (a b : Z) : Z := wrap64 (a - b).
Definition neg64 (a : Z) : Z := wrap64 (- a).

Definition in_int (z : Z) : Prop := min_int <= z <= max_int.

End GoInt.
Export GoInt.

(** ** Go strings and runes *)

Module GoString.

Definition rune : Type := Z.

Definition Z_of_byte (b : ascii) : Z := Z.of_N (N_of_ascii b).
Definition byte_of_Z (z : Z) : ascii := ascii_of_N (Z.to_N z).

Definition RuneError : rune := 65533.
Definition MaxRune : rune := 1114111.

(** A code point that UTF-8 can encode: in range and not a surrogate. *)
Definition valid_rune (r : rune) : bool :=
  ((0 <=? r) && (r <? 55296)) || ((57344 <=? r) && (r <=? MaxRune)).

(** What a code point becomes when it is converted to a string and
    read back. *)
Definition sanitize (r : rune) : rune :=
  if valid_rune r then r else RuneError.

Definition bytes (l : list Z) : string :=
  fold_right (fun z s => String (byte_of_Z z) s) EmptyString l.

(** [string(rune)]: the UTF-8 encoding of [r]; a value that is not a valid
    code point is encoded as U+FFFD. *)
Definition encode_rune (r : rune) : string :=
  if negb (valid_rune r) then bytes [239; 191; 189]
  else if r <? 128 then bytes [r]
  else if r <? 2048 then bytes [192 + r / 64; 128 + r mod 64]
  else if r <? 65536 then
    bytes [224 + r / 4096; 128 + (r / 64) mod 64; 128 + r mod 64]
  else
    bytes [240 + r / 262144; 128 + (r / 4096) mod 64;
           128 + (r / 64) mod 64; 128 + r mod 64].

(** [string(runes)] *)
Fixpoint string_of_runes (l : list rune) : string :=
  match l with
  | [] => EmptyString
  | r :: l' => (encode_rune r ++ string_of_runes l')%string
  end.

Definition between (lo x hi : Z) : bool := (lo <=? x) && (x <=? hi).

(** A continuation byte. *)
Definition cont (x : Z) : bool := between 128 x 191.

(** [[]rune(s)]: UTF-8 decoding; a byte that does not start a well-formed
    sequence is decoded as U+FFFD and one byte is consumed. *)
Fixpoint runes_of_string (s : string) : list rune :=
  match s with
  | EmptyString => []
  | String b0 s1 =>
    let x0 := Z_of_byte b0 in
    let bad := RuneError :: runes_of_string s1 in
    if x0 <? 128 then x0 :: runes_of_string s1
    else if x0 <? 194 then bad
    else if x0 <? 224 then
      match s1 with
      | String b1 s2 =>
        let x1 := Z_of_byte b1 in
        if cont x1
        then ((x0 - 192) * 64 + (x1 - 128)) :: runes_of_string s2
        else bad
      | _ => bad
      end
    else if x0 <? 240 then
      match s1 with
      | String b1 (String b2 s3) =>
        let x1 := Z_of_byte b1 in
        let x2 := Z_of_byte b2 in
        if between (if x0 =? 224 then 160 else 128) x1
                   (if x0 =? 237 then 159 else 191) && cont x2
        then ((x0 - 224) * 4096 + (x1 - 128) * 64 + (x2 - 128))
               :: runes_of_string s3
        else bad
      | _ => bad
      end
    else if x0 <? 245 then
      match s1 with
      | String b1 (String b2 (String b3 s4)) =>
        let x1 := Z_of_byte b1 in
        let x2 := Z_of_byte b2 in
        let x3 := Z_of_byte b3 in
        if between (if x0 =? 240 then 144 else 128) x1
                   (if x0 =? 244 then 143 else 191) && cont x2 && cont x3
        then ((x0 - 240) * 262144 + (x1 - 128) * 4096
              + (x2 - 128) * 64 + (x3 - 128)) :: runes_of_string s4
        else bad
      | _ => bad
      end
    else bad
  end.

(** [utf8.ValidString]: no byte is decoded as an encoding error. The
    three bytes of a well-formed U+FFFD are accepted. *)
Fixpoint valid_utf8 (s : string) : bool :=
  match s with
  | EmptyString => true
  | String b0 s1 =>
    let x0 := Z_of_byte b0 in
    if x0 <? 128 then valid_utf8 s1
    else if x0 <? 194 then false
    else if x0 <? 224 then
      match s1 with
      | String b1 s2 => cont (Z_of_byte b1) && valid_utf8 s2
      | _ => false
      end
    else if x0 <? 240 then
      match s1 with
      | String b1 (String b2 s3) =>
        between (if x0 =? 224 then 160 else 128) (Z_of_byte b1)
                (if x0 =? 237 then 159 else 191)
        && cont (Z_of_byte b2) && valid_utf8 s3
      | _ => false
      end
    else if x0 <? 245 then
      match s1 with
      | String b1 (String b2 (String b3 s4)) =>
        between (if x0 =? 240 then 144 else 128) (Z_of_byte b1)
                (if x0 =? 244 then 143 else 191)
        && cont (Z_of_byte b2) && cont (Z_of_byte b3) && valid_utf8 s4
      | _ => false
      end
    else false
  end.

(** ASCII text: one byte for each rune. *)
Definition ascii_line (l : list rune) : Prop :=
  Forall (fun r => 0 <= r < 128) l.

(** [len(s)], in bytes. *)
Definition len (s : string) : Z := Z.of_nat (String.length s).

(** [s[:n]] for [0 <= n <= len(s)]; outside that range Go panics. *)
Definition slice_to (s : string) (n : Z) : res string :=
  if (n <? 0) || (len s <? n)
  then Panic "slice bounds out of range"
  else Ok (String.substring 0 (Z.to_nat n) s).

(** [strings.HasPrefix(s, p)] *)
Definition HasPrefix (s p : string) : bool := String.prefix p s.

(** [strings.Contains(s, q)]: [q] occurs in [s] as a run of bytes. *)
Fixpoint Contains (s q : string) : bool :=
  String.prefix q s ||
  match s with
  | EmptyString => false
  | String _ s' => Contains s' q
  end.

(** [unicode.IsSpace] *)
Definition IsSpace (r : rune) : bool :=
  between 9 r 13 || (r =? 32) || (r =? 133) || (r =? 160) || (r =? 5760)
  || between 8192 r 8202 || (r =? 8232) || (r =? 8233) || (r =? 8239)
  || (r =? 8287) || (r =? 12288).

(** [len(strings.TrimSpace(s)) == 0]: every code point of [s] is white
    space. *)
Definition blank (s : string) : bool := forallb IsSpace (runes_of_string s).

(** [strings.Repeat(s, n)]; a negative count panics. *)
Definition Repeat (s : string) (n : Z) : res string :=
  if n <? 0 then Panic "strings: negative Repeat count"
  else Ok (Nat.iter (Z.to_nat n) (fun acc => (s ++ acc)%string) EmptyString).

End GoString.
Export GoString.

(** ** Collaborators of the history manager *)

(** The packages [color] and [keymap] are not among the sources: the
    escape sequences and the names of the keymaps that the code refers to
    are taken as they come. *)
Module color.

Class Colors : Type := {
  Reset : string;
  Bold : string;
  Dim : string;
  FgRed : string;
  FgCyan : string
}.

End color.

Module keymap.

Class Modes : Type := {
  Vi : string;
  ViCommand : string;
  ViMove : string;
  Isearch : string
}.

End keymap.

Module core.

(** [type Line []rune] *)
Definition Line : Type := list rune.

Definition Line_Len (l : Line) : Z := Z.of_nat (length l).

(** Modelled from the spec: [core.Cursor] is not among the sources. A
    cursor is a position over a line plus a mark (-1 when unset); the
    line it points to is passed to the operations that need its length. *)
Record Cursor : Type := mkCursor { cur_pos : Z; cur_mark : Z }.

Definition Pos (c : Cursor) : Z := cur_pos c.

(** Modelled from the spec: [Cursor.Set(pos)] clamps to the bounds of the
    line, [[0, Len]]. *)
Definition Cursor_Set (l : Line) (p : Z) (c : Cursor) : Cursor :=
  if p <? 0 then mkCursor 0 (cur_mark c)
  else if Line_Len l <? p then mkCursor (Line_Len l) (cur_mark c)
  else mkCursor p (cur_mark c).

End core.
Export core.

Module ui.

(** Modelled from the spec: [ui.Hint] is not among the sources; the hint
    is a transient one-line status and [Set] replaces its text. *)
Record Hint : Type := mkHint { hint_text : string }.

Definition Hint_Set (s : string) (h : Hint) : Hint := mkHint s.

End ui.
Export ui.

Module inputrc.

(** [inputrc.Config] is not among the sources; the manager only reads it
    through [GetInt], [GetString] and [GetBool], which are taken as they
    come. *)
Record Config : Type := mkConfig {
  GetInt : string -> Z;
  GetString : string -> string;
  GetBool : string -> bool
}.

Record Bind : Type := mkBind { Action : string; Macro : bool }.

End inputrc.
Export inputrc.

(** ** History sources *)

Module history.

(** The interface [Source]: [Len() int], [GetLine(i int) (string, error)]
    and [Write(s string) (int, error)]. An error is [Some] message, the
    nil error is [None]. *)
Class Source (S : Type) : Type := {
  Len : S -> Z;
  GetLine : S -> Z -> string * option string;
  SrcWrite : S -> string -> S * (Z * option string)
}.

(** Modelled from the spec: the in-memory backend [memory] is not among
    the sources; a source is a finite sequence of lines read with [Len]
    and [GetLine(i)] and extended with [Write(s)]. The lines are held in
    index order. [GetLine] fails outside [[0, Len)]. [Write] stores the
    line at index [Len] and returns the new length: the code at hand reads
    the entry at [Len-1] as the last one written ([Walk], [GetLast],
    [Write]) and lists the entries from index 0 on as from the most ancient
    to the most recent ([Complete]). *)
Definition memory : Type := list string.

Definition memory_GetLine (m : memory) (i : Z) : string * option string :=
  if i <? 0 then (EmptyString, Some "negative index"%string)
  else match m !! Z.to_nat i with
       | Some l => (l, None)
       | None => (EmptyString, Some "index out of range"%string)
       end.

#[global] Instance memory_Source : Source memory := {
  Len m := Z.of_nat (length m);
  GetLine := memory_GetLine;
  SrcWrite m s := (m ++ [s], (Z.of_nat (length m) + 1, None))
}.

(** Modelled from the spec: a backend that numbers its entries as the
    specification does, index 0 being the most recent. [Write] puts the
    line at index 0 and returns the new length. *)
Record recent_first : Type := RecentFirst { entries : list string }.

#[global] Instance recent_first_Source : Source recent_first := {
  Len m := Z.of_nat (length (entries m));
  GetLine m := memory_GetLine (entries m);
  SrcWrite m s :=
    (RecentFirst (s :: entries m), (Z.of_nat (length (entries m)) + 1, None))
}.

(** Per-line undo states of a recalled history line. *)
Record lineItem : Type := mkLineItem { item_line : string; item_pos : Z }.
Record lineHistory : Type := mkLineHistory { items : list lineItem }.

Section Sources.

Context {S : Type} {source : Source S} {colors : color.Colors}.

(** [new(memory)] and the constant [defaultSourceName], both declared
    outside the files at hand. *)
Variable new_memory : S.
Variable defaultSourceName : string.

Record Sources : Type := mkSources {
  list_ : gmap string (option S);
  names : list string;
  maxEntries : Z;
  sourcePos : Z;
  buf : string;
  hpos : Z;
  infer : bool;
  accepted : bool;
  acceptHold : bool;
  acceptLine : Line;
  acceptErr : option string;
  lines : gmap string (gmap Z lineHistory);
  line : Line;
  cursor : Cursor;
  cpos : Z;
  hint : Hint;
  opts : Config
}.

Definition set_list (v : gmap string (option S)) (h : Sources) : Sources :=
  mkSources v (names h) (maxEntries h) (sourcePos h) (buf h) (hpos h)
    (infer h) (accepted h) (acceptHold h) (acceptLine h) (acceptErr h)
    (lines h) (line h) (cursor h) (cpos h) (hint h) (opts h).
Definition set_buf (v : string) (h : Sources) : Sources :=
  mkSources (list_ h) (names h) (maxEntries h) (sourcePos h) v (hpos h)
    (infer h) (accepted h) (acceptHold h) (acceptLine h) (acceptErr h)
    (lines h) (line h) (cursor h) (cpos h) (hint h) (opts h).
Definition set_hpos (v : Z) (h : Sources) : Sources :=
  mkSources (list_ h) (names h) (maxEntries h) (sourcePos h) (buf h) v
    (infer h) (accepted h) (acceptHold h) (acceptLine h) (acceptErr h)
    (lines h) (line h) (cursor h) (cpos h) (hint h) (opts h).
Definition set_infer (v : bool) (h : Sources) : Sources :=
  mkSources (list_ h) (names h) (maxEntries h) (sourcePos h) (buf h)
    (hpos h) v (accepted h) (acceptHold h) (acceptLine h) (acceptErr h)
    (lines h) (line h) (cursor h) (cpos h) (hint h) (opts h).
Definition set_accept (a hold : bool) (l : Line) (e : option string)
    (h : Sources) : Sources :=
  mkSources (list_ h) (names h) (maxEntries h) (sourcePos h) (buf h)
    (hpos h) (infer h) a hold l e
    (lines h) (line h) (cursor h) (cpos h) (hint h) (opts h).
Definition set_line (v : Line) (h : Sources) : Sources :=
  mkSources (list_ h) (names h) (maxEntries h) (sourcePos h) (buf h)
    (hpos h) (infer h) (accepted h) (acceptHold h) (acceptLine h)
    (acceptErr h) (lines h) v (cursor h) (cpos h) (hint h) (opts h).
Definition set_cursor (v : Cursor) (h : Sources) : Sources :=
  mkSources (list_ h) (names h) (maxEntries h) (sourcePos h) (buf h)
    (hpos h) (infer h) (accepted h) (acceptHold h) (acceptLine h)
    (acceptErr h) (lines h) (line h) v (cpos h) (hint h) (opts h).
Definition set_cpos (v : Z) (h : Sources) : Sources :=
  mkSources (list_ h) (names h) (maxEntries h) (sourcePos h) (buf h)
    (hpos h) (infer h) (accepted h) (acceptHold h) (acceptLine h)
    (acceptErr h) (lines h) (line h) (cursor h) v (hint h) (opts h).
Definition set_hint (v : Hint) (h : Sources) : Sources :=
  mkSources (list_ h) (names h) (maxEntries h) (sourcePos h) (buf h)
    (hpos h) (infer h) (accepted h) (acceptHold h) (acceptLine h)
    (acceptErr h) (lines h) (line h) (cursor h) (cpos h) v (opts h).

(** [h.line.Set(runes...)] followed by [h.cursor.Set(h.line.Len())]. *)
Definition set_line_cursor_end (l : Line) (h : Sources) : Sources :=
  let h := set_line l h in
  set_cursor (Cursor_Set (line h) (Line_Len (line h)) (cursor h)) h.

(** [NewSources] *)
Definition NewSources (l : Line) (cur : Cursor) (hnt : Hint)
    (o : Config) : Sources :=
  let maxEntries := GetInt o "history-size" in
  let sizeSet := negb (String.eqb (GetString o "history-size") "") in
  let maxEntries :=
    if (maxEntries =? 0) && negb sizeSet then -1
    else if (maxEntries =? 0) && sizeSet then 500
    else maxEntries in
  {| list_ := {[ defaultSourceName := Some new_memory ]};
     names := [defaultSourceName];
     maxEntries := maxEntries;
     sourcePos := 0;
     buf := EmptyString;
     hpos := 0;
     infer := false;
     accepted := false;
     acceptHold := false;
     acceptLine := [];
     acceptErr := None;
     lines := ∅;
     line := l;
     cursor := cur;
     cpos := -1;
     hint := hnt;
     opts := o |}.

(** [names[i]]; an index out of range panics. *)
Definition index_names (h : Sources) (i : Z) : res string :=
  if i <? 0 then Panic "index out of range"
  else match names h !! Z.to_nat i with
       | Some n => Ok n
       | None => Panic "index out of range"
       end.

(** [Current]: the active source; [None] is the nil source. A name
    that is not a key of the map reads as nil. *)
Definition Current (h : Sources) : res (option S) :=
  if Z.of_nat (size (list_ h)) =? 0 then Ok None
  else name ← index_names h (sourcePos h);
       Ok (mjoin (list_ h !! name)).

(** Modelled from the spec: [getLineHistory] is not among the sources;
    it gives the per-line undo history kept for the entry at [hpos] of
    the active source, if there is one. *)
Definition getLineHistory (h : Sources) : option lineHistory :=
  match index_names h (sourcePos h) with
  | Ok name => (lines h !! name) ≫= (fun m => m !! hpos h)
  | Panic _ => None
  end.

(** [setLineCursorMatch] *)
Definition setLineCursorMatch (next : string) (h : Sources) : Sources :=
  let h :=
    if (cpos h =? -1) && (0 <? Line_Len (line h))
       && (Pos (cursor h) <? sub64 (Line_Len (line h)) 1)
    then set_cpos (Pos (cursor h)) h else h in
  let h := set_line (runes_of_string next) h in
  if GetBool (opts h) "history-preserve-point"
     && (Line_Len (line h) >? cpos h) && negb (cpos h =? -1)
  then set_cursor (Cursor_Set (line h) (cpos h) (cursor h)) h
  else set_cursor (Cursor_Set (line h) (Line_Len (line h)) (cursor h)) h.

(** The clamping [switch] of [Walk]: the first case that holds is the
    only one that runs. *)
Definition Walk_clamp (history : S) (h : Sources) : Sources :=
  if hpos h >? Len history then set_hpos (Len history) h
  else if hpos h <? 0 then set_hpos 0 h
  else if hpos h =? 0 then set_line_cursor_end (runes_of_string (buf h)) h
  else h.

(** [Walk] *)
Definition Walk (pos : Z) (h : Sources) : res Sources :=
  history ← Current h;
  match history with
  | None => Ok h
  | Some history =>
    if Len history =? 0 then Ok h
    else if ((pos <? 0) && (hpos h =? 0))
            || ((0 <? pos) && (hpos h =? Len history)) then Ok h
    else
      let h :=
        if (hpos h =? 0) && (add64 (hpos h) pos =? 1)
        then set_buf (string_of_runes (line h)) h else h in
      let h := set_hpos (add64 (hpos h) pos) h in
      let h := Walk_clamp history h in
      if hpos h =? 0 then Ok h
      else
        match getLineHistory h with
        | Some (mkLineHistory (i :: its)) =>
          Ok (setLineCursorMatch (item_line (List.last its i)) h)
        | _ =>
          match GetLine history (sub64 (Len history) (hpos h)) with
          | (_, Some err) =>
            Ok (set_hint (Hint_Set (color.FgRed ++ "history error: " ++ err)
                                   (hint h)) h)
          | (ln, None) => Ok (setLineCursorMatch ln h)
          end
        end
  end.

(** The body of the [range] loop of [Write], for the sources visited in
    [order]. The duplicate test [return]s from [Write]: the sources
    still to visit are left alone. *)
Fixpoint Write_range (order : list string) (ln : string) (h : Sources)
    : Sources :=
  match order with
  | [] => h
  | name :: rest =>
    match mjoin (list_ h !! name) with
    | None => Write_range rest ln h
    | Some history =>
      if (maxEntries h =? 0) || (maxEntries h >=? Len history)
      then Write_range rest ln h
      else
        let '(last, err) := GetLine history (sub64 (Len history) 1) in
        if bool_decide (err = None) && negb (String.eqb last "")
           && String.eqb last ln
        then h
        else
          let '(history', (i, err)) := SrcWrite history ln in
          let h := set_list (<[name := Some history']> (list_ h))
                            (set_hpos i h) in
          let h := match err with
                   | Some e => set_hint (Hint_Set (color.FgRed ++ e)
                                                  (hint h)) h
                   | None => h
                   end in
          Write_range rest ln h
    end
  end.

(** [Write]; [order] is the order in which [range h.list] visits the
    names of the sources. *)
Definition Write (order : list string) (inf : bool) (h : Sources)
    : Sources :=
  if inf then set_infer true h
  else
    let ln := string_of_runes (line h) in
    if blank ln then h
    else Write_range order ln h.

(** An order in which [range] may visit the map of sources: each key
    once. *)
Definition range_order (order : list string) (h : Sources) : Prop :=
  order ≡ₚ (map_to_list (list_ h)).*1.

(** [Accept] *)
Definition Accept (order : list string) (hold inf : bool)
    (err : option string) (h : Sources) : Sources :=
  Write order inf (set_accept true hold (line h) err h).

(** The test made on one history line by [match]. The substring test
    compiles [regexp.QuoteMeta(line)], which fails exactly when the
    text is not well-formed UTF-8, and the compiled expression matches
    the lines that contain the text. *)
Definition candidate_matches (mline : Line) (cur : option Cursor)
    (regex : bool) (histline : string) : res bool :=
  if regex then
    c ← match cur with
        | Some c => Ok c
        | None => Panic "nil pointer dereference"
        end;
    let ln := string_of_runes mline in
    ln ← (if Pos c <? Line_Len mline then slice_to ln (Pos c) else Ok ln);
    if negb (valid_utf8 ln) then Ok false
    else Ok (Contains histline ln)
  else
    Ok (negb ((len histline <? Line_Len mline)
              || negb (HasPrefix histline (string_of_runes mline)))).

(** The loop of [match]; [None] when the fuel runs out. *)
Fixpoint match_loop (fuel : nat) (history : S) (mline : Line)
    (cur : option Cursor) (fwd regex : bool) (histPos : Z)
    : res (option (string * Z * bool)) :=
  match fuel with
  | O => Ok None
  | Datatypes.S fuel' =>
    let done := if fwd then histPos <? Len history else 0 <? histPos in
    if negb done then Ok (Some (EmptyString, 0, false))
    else
      let histPos := if fwd then add64 histPos 1 else sub64 histPos 1 in
      match GetLine history histPos with
      | (_, Some _) => Ok (Some (EmptyString, 0, false))
      | (histline, None) =>
        m ← candidate_matches mline cur regex histline;
        if (m : bool) then Ok (Some (histline, histPos, true))
        else match_loop fuel' history mline cur fwd regex histPos
      end
  end.

(** The position [match] starts from. *)
Definition match_start (history : S) (usePos fwd : bool) (h : Sources)
    : Z :=
  let histPos := if fwd then -1 else Len history in
  if usePos && (0 <? hpos h) then sub64 (Len history) (hpos h)
  else histPos.

(** Fuel for the loop of [match]: one more than the distance from
    [histPos] to the bound the loop runs to. *)
Definition match_fuel (history : S) (fwd : bool) (histPos : Z) : nat :=
  Z.to_nat (if fwd then Len history - histPos else histPos) + 1.

(** [match]: the line found, its index and whether one was found. *)
Definition match_ (mline : Line) (cur : option Cursor)
    (usePos fwd regex : bool) (h : Sources)
    : res (option (string * Z * bool)) :=
  if Z.of_nat (size (list_ h)) =? 0 then Ok (Some (EmptyString, 0, false))
  else
    history ← Current h;
    match history with
    | None => Ok (Some (EmptyString, 0, false))
    | Some history =>
      let histPos := match_start history usePos fwd h in
      match_loop (match_fuel history fwd histPos) history mline cur fwd
                 regex histPos
    end.

(** [InsertMatch]; [None] when the loop of [match] ran out of fuel. *)
Definition InsertMatch (mline : Line) (cur : option Cursor)
    (usePos fwd regexp : bool) (h : Sources) : res (option Sources) :=
  if Z.of_nat (size (list_ h)) =? 0 then Ok (Some h)
  else
    c ← Current h;
    match c with
    | None => Ok (Some h)
    | Some history =>
      r ← match_ mline cur usePos fwd regexp h;
      match r with
      | None => Ok None
      | Some (_, _, false) => Ok (Some h)
      | Some (m, pos, true) =>
        let h := set_hpos (sub64 (Len history) pos) h in
        Ok (Some (set_line_cursor_end (runes_of_string m) h))
      end
    end.

(** The fields that [Walk] never writes: the sources, their names, the
    active source, the ceiling and the options. *)
Definition same_sources (h h' : Sources) : Prop :=
  list_ h' = list_ h /\ names h' = names h /\ sourcePos h' = sourcePos h
  /\ maxEntries h' = maxEntries h /\ lines h' = lines h
  /\ opts h' = opts h.

End Sources.

Arguments Sources S : clear implicits.

End history.
Export history.

(** ** Completion engine *)

Module completion.

(** [type Candidate struct] *)
Record Candidate : Type := mkCandidate {
  Value : string;
  Display : string;
  Description : string;
  Style : string;
  Tag : string
}.

(** [type Values struct]; the message list and the suffix matcher are
    declared outside the files at hand and play no part here. *)
Record Values : Type := mkValues {
  values : list Candidate;
  usage : string;
  listLong : gmap string bool;
  noSort : gmap string bool;
  listSep : gmap string string;
  PREFIX : string
}.

Definition Completer : Type := unit -> Values.

(** [m[k]] on a [map[string]bool]: a missing key reads as [false]. *)
Definition map_get (m : gmap string bool) (k : string) : bool :=
  default false (m !! k).

(** The first loop of [completionsAreAliases], from index [i] on. *)
Fixpoint fill_oddValueMap (i : Z) (vals : list Candidate)
    (oddValueMap : gmap string bool) : gmap string bool :=
  match vals with
  | [] => oddValueMap
  | value :: rest =>
    fill_oddValueMap (i + 1) rest
      (if (Z.rem i 2 =? 0) && negb (String.eqb (Description value) "")
       then <[Description value := true]> oddValueMap
       else oddValueMap)
  end.

(** The second loop of [completionsAreAliases], from index [i] on. *)
Fixpoint probe_oddValueMap (i : Z) (vals : list Candidate)
    (oddValueMap : gmap string bool) : bool :=
  match vals with
  | [] => false
  | value :: rest =>
    if negb (Z.rem i 2 =? 0) && map_get oddValueMap (Description value)
       && negb (String.eqb (Description value) "")
    then true
    else probe_oddValueMap (i + 1) rest oddValueMap
  end.

(** [completionsAreAliases] *)
Definition completionsAreAliases (vals : list Candidate) : bool :=
  let oddValueMap := fill_oddValueMap 0 vals ∅ in
  probe_oddValueMap 0 vals oddValueMap.

(** The grouping of [createDescribedRows]: a candidate joins the row of
    the first earlier candidate with the same description. *)
Fixpoint add_to_rows (c : Candidate) (rows : list (string * list Candidate))
    : list (string * list Candidate) :=
  match rows with
  | [] => [(Description c, [c])]
  | (d, row) :: rest =>
    if String.eqb d (Description c) then (d, row ++ [c]) :: rest
    else (d, row) :: add_to_rows c rest
  end.

Definition createDescribedRows (vals : list Candidate)
    : list (list Candidate) * list string :=
  let rows := fold_left (fun rows c => add_to_rows c rows) vals [] in
  (rows.*2, rows.*1).

(** A completion group, with the fields the incremental search resets. *)
Record group : Type := mkGroup {
  tag : string;
  rows : list (list Candidate);
  descriptions : list string;
  columnsWidth : list Z;
  aliased : bool;
  posX : Z;
  posY : Z
}.

(** The objects [GetBuffer] hands out are pointers; each names one of the
    buffers, cursors and selections the engine holds. A selection made by
    [core.NewSelection] is a new object over a line and a cursor. *)
Inductive LineRef : Type := the_isearchBuf | the_completed | the_line.
Inductive CursorRef : Type := the_isearchCur | the_compCursor | the_cursor.
Inductive SelectionRef : Type :=
| the_selection
| NewSelection (l : LineRef) (c : CursorRef).

Section Engine.

Context {Regexp : Type} {colors : color.Colors} {modes : keymap.Modes}.

(** [regexp.Compile], from the Go library, over the type [Regexp] of
    compiled expressions; a failed compilation is [None] (the pointer
    returned is then nil). *)
Variable regexp_Compile : string -> option Regexp.

(** [unicode.IsUpper], from the Go library. *)
Variable IsUpper : rune -> bool.

(** [type Engine struct], with the fields read or written by the
    functions below. [isearchBuf] and [isearchCur] are pointers, nil
    when [None]. *)
Record Engine : Type := mkEngine {
  e_hint : Hint;
  e_local : string;
  e_line : Line;
  e_cursor : Cursor;
  e_completed : Line;
  e_compCursor : Cursor;
  selected : Candidate;
  groups : list group;
  cached : option Completer;
  auto : bool;
  autoForce : bool;
  isearchBuf : option Line;
  isearchCur : option Cursor;
  isearch : option Regexp;
  isearchName : string;
  isearchInsert : bool
}.

Definition set_e_hint (v : Hint) (e : Engine) : Engine :=
  mkEngine v (e_local e) (e_line e) (e_cursor e) (e_completed e)
    (e_compCursor e) (selected e) (groups e) (cached e) (auto e)
    (autoForce e) (isearchBuf e) (isearchCur e) (isearch e)
    (isearchName e) (isearchInsert e).
Definition set_isearch (v : option Regexp) (e : Engine) : Engine :=
  mkEngine (e_hint e) (e_local e) (e_line e) (e_cursor e) (e_completed e)
    (e_compCursor e) (selected e) (groups e) (cached e) (auto e)
    (autoForce e) (isearchBuf e) (isearchCur e) v
    (isearchName e) (isearchInsert e).
Definition set_groups (v : list group) (e : Engine) : Engine :=
  mkEngine (e_hint e) (e_local e) (e_line e) (e_cursor e) (e_completed e)
    (e_compCursor e) (selected e) v (cached e) (auto e)
    (autoForce e) (isearchBuf e) (isearchCur e) (isearch e)
    (isearchName e) (isearchInsert e).

(** Functions of the engine declared outside the files at hand:
    [GenerateWith], [Matches] and [Select], and the part of
    [group.updateIsearch] that filters a group with a compiled
    expression. *)
Variable GenerateWith : option Completer -> Engine -> Engine.
Variable Matches : Engine -> Z.
Variable Select : Z -> Z -> Engine -> Engine.
Variable filter_group : Regexp -> Engine -> group -> group.

(** [GetBuffer] *)
Definition GetBuffer (e : Engine) : LineRef * CursorRef * SelectionRef :=
  if bool_decide (isearchCur e <> None) then
    let selection := NewSelection the_isearchBuf the_isearchCur in
    (the_isearchBuf, the_isearchCur, selection)
  else if 0 <? len (Value (selected e)) then
    (the_completed, the_compCursor, the_selection)
  else (the_line, the_cursor, the_selection).

(** What the pointers handed out point to. *)
Definition line_at (e : Engine) (r : LineRef) : option Line :=
  match r with
  | the_isearchBuf => isearchBuf e
  | the_completed => Some (e_completed e)
  | the_line => Some (e_line e)
  end.

Definition cursor_at (e : Engine) (r : CursorRef) : option Cursor :=
  match r with
  | the_isearchCur => isearchCur e
  | the_compCursor => Some (e_compCursor e)
  | the_cursor => Some (e_cursor e)
  end.

(** Modelled from the spec: [hasUpper] is not among the sources; smart
    case looks for any uppercase code point in the query. *)
Definition hasUpper (l : Line) : bool := existsb IsUpper l.

(** [*e.isearchBuf]; dereferencing a nil pointer panics. *)
Definition deref_isearchBuf (e : Engine) : res Line :=
  match isearchBuf e with
  | Some l => Ok l
  | None => Panic "nil pointer dereference"
  end.

(** [group.updateIsearch]: nothing is done without a compiled
    expression. *)
Definition group_updateIsearch (e : Engine) (g : group) : group :=
  match isearch e with
  | None => g
  | Some rx => filter_group rx e g
  end.

(** [for _, g := range e.groups { g.updateIsearch(e) }]: the groups are
    updated in place, one after the other. *)
Definition update_groups (e : Engine) : Engine :=
  fold_left
    (fun e i =>
       match groups e !! i with
       | Some g => set_groups (<[i := group_updateIsearch e g]> (groups e)) e
       | None => e
       end)
    (seq 0 (length (groups e))) e.

Definition failed_hint : string :=
  (color.FgRed ++ "Failed to compile i-search regexp")%string.

Definition isearchHint (e : Engine) (b : Line) : string :=
  (color.Bold ++ color.FgCyan ++ isearchName e ++ " (inc-search): "
   ++ color.Reset ++ color.Bold ++ string_of_runes b)%string.

(** The expression [updateIncrementalSearch] compiles: the minibuffer
    as it is when it holds an uppercase code point, and made
    case-insensitive otherwise. *)
Definition regexStr (b : Line) : string :=
  if hasUpper b then string_of_runes b
  else ("(?i)" ++ string_of_runes b)%string.

(** [updateIncrementalSearch] *)
Definition updateIncrementalSearch (e : Engine) : res Engine :=
  b ← deref_isearchBuf e;
  let compiled := regexp_Compile (regexStr b) in
  let e := set_isearch compiled e in
  let e := if bool_decide (compiled = None)
           then set_e_hint (Hint_Set failed_hint (e_hint e)) e
           else e in
  let e := GenerateWith (cached e) e in
  let e := update_groups e in
  b ← deref_isearchBuf e;
  let e := set_e_hint (Hint_Set (isearchHint e b) (e_hint e)) e in
  b ← deref_isearchBuf e;
  if isearchInsert e && (0 <? Matches e) && (0 <? Line_Len b)
  then Ok (Select 1 0 e)
  else Ok e.

Definition nonIsearchHint (e : Engine) (b : Line) : string :=
  (color.Bold ++ color.FgCyan ++ isearchName e ++ " (non-inc-search): "
   ++ color.Reset ++ color.Bold ++ string_of_runes b)%string.

(** [updateNonIncrementalSearch] *)
Definition updateNonIncrementalSearch (e : Engine) : res Engine :=
  b ← deref_isearchBuf e;
  Ok (set_e_hint (Hint_Set (nonIsearchHint e b) (e_hint e)) e).

(** [UpdateIsearch] *)
Definition UpdateIsearch (e : Engine) : res Engine :=
  if negb (String.eqb (e_local e) keymap.Isearch)
     && bool_decide (isearchCur e = None) then Ok e
  else if 0 <? len (Value (selected e)) then Ok e
  else if String.eqb (e_local e) keymap.Isearch
  then updateIncrementalSearch e
  else updateNonIncrementalSearch e.

End Engine.

Arguments Engine Regexp : clear implicits.

End completion.
Export completion.

(** ** Right prompt *)

Module prompt.

Section Prompt.

(** [strutil.RealLength] (the printed width of a string) and
    [term.ClearLineAfter], both declared outside the files at hand. *)
Variable RealLength : string -> Z.
Variable ClearLineAfter : string.

(** The callbacks of [type Prompt struct] that [RightPrint] calls: a
    nil function is [None], otherwise the string the call returns. *)
Record Prompt : Type := mkPrompt {
  rightF : option string;
  tooltipF : option string
}.

(** [formatRightPrompt]; [termWidth] is what [term.GetWidth()]
    returns. *)
Definition formatRightPrompt (termWidth : Z) (rprompt : string)
    (startColumn : Z) : res (string * bool) :=
  let promptLen := RealLength rprompt in
  let padLen := sub64 (sub64 termWidth startColumn) promptLen in
  let padLen :=
    if startColumn =? termWidth then sub64 startColumn promptLen
    else padLen in
  let canPrint := (add64 startColumn promptLen <? termWidth)
                  || (startColumn =? termWidth) in
  if canPrint then
    pad ← Repeat " " padLen;
    Ok ((pad ++ rprompt ++ ClearLineAfter)%string, true)
  else Ok (EmptyString, false).

(** The string [RightPrint] settles on: the tooltip when there is one
    and [force] is set, else the right prompt when there is one. *)
Definition rprompt_of (p : Prompt) (force : bool) : string :=
  let rprompt := EmptyString in
  let rprompt :=
    match tooltipF p with
    | Some tooltip => if force then tooltip else rprompt
    | None => rprompt
    end in
  match rightF p with
  | Some rp => if String.eqb rprompt "" then rp else rprompt
  | None => rprompt
  end.

(** [RightPrint]: the strings printed, in order. *)
Definition RightPrint (termWidth : Z) (p : Prompt) (startColumn : Z)
    (force : bool) : res (list string) :=
  let rprompt := rprompt_of p force in
  if String.eqb rprompt "" then Ok []
  else
    '(prompt, canPrint) ← formatRightPrompt termWidth rprompt startColumn;
    if (canPrint : bool) then Ok [prompt] else Ok [ClearLineAfter].

End Prompt.

End prompt.
Export prompt.

(** ** The main read loop *)

Module shell.

(** The calls the shell makes into its collaborators, in the order they
    are made; a command is one of the [func()] values bound in a keymap. *)
Inductive Event (Cmd : Type) : Type :=
| MakeRaw
| Restore
| PrimaryPrint
| RefreshTransient
| Init
| RecordKeys
| FlushUsed
| Refresh
| WaitAvailableKeys
| MatchLocal
| MatchMain
| Feed (macro : string)
| GetBuffer
| Command (c : Cmd)
| RunPending
| CheckCommand
| CheckAppend
| ResetPostRunIterations
| HintResetPersist
| HintPersist (hint : string)
| UpdateIsearch
| SaveWithCommand (b : Bind)
| LineAccepted
| UpdateInserted
| HintReset
| CompleterReset.
Arguments MakeRaw {Cmd}.
Arguments Restore {Cmd}.
Arguments PrimaryPrint {Cmd}.
Arguments RefreshTransient {Cmd}.
Arguments Init {Cmd}.
Arguments RecordKeys {Cmd}.
Arguments FlushUsed {Cmd}.
Arguments Refresh {Cmd}.
Arguments WaitAvailableKeys {Cmd}.
Arguments MatchLocal {Cmd}.
Arguments MatchMain {Cmd}.
Arguments Feed {Cmd} macro.
Arguments GetBuffer {Cmd}.
Arguments Command {Cmd} c.
Arguments RunPending {Cmd}.
Arguments CheckCommand {Cmd}.
Arguments CheckAppend {Cmd}.
Arguments ResetPostRunIterations {Cmd}.
Arguments HintResetPersist {Cmd}.
Arguments HintPersist {Cmd} hint.
Arguments UpdateIsearch {Cmd}.
Arguments SaveWithCommand {Cmd} b.
Arguments LineAccepted {Cmd}.
Arguments UpdateInserted {Cmd}.
Arguments HintReset {Cmd}.
Arguments CompleterReset {Cmd}.

(** How one pass of the loop ends: [continue] (or the end of the body),
    or [return line, err]. *)
Inductive Outcome : Type :=
| Continue
| Return (line : string) (err : option string).

Section Loop.

(** The state of everything the shell owns, and the commands. *)
Context {World Cmd : Type} {colors : color.Colors} {modes : keymap.Modes}.

(** What a call does to that state. *)
Variable effect : Event Cmd -> World -> World.

(** What the calls that return a value return, in a given state:
    [term.MakeRaw] an error or none; [keymap.MatchLocal] and
    [keymap.MatchMain] the bind, the command (nil when [None]) and whether
    the keys are a strict prefix of a binding; [LineAccepted] the triple
    [(accepted, line, err)]; [core.ResetPostRunIterations] a hint;
    [Buffers.IsSelected] a register and whether one is selected. *)
Variable makeRaw : World -> option string.
Variable matchLocal : World -> Bind * option Cmd * bool.
Variable matchMain : World -> Bind * option Cmd * bool.
Variable lineAccepted : World -> bool * string * option string.
Variable resetPostRunIterations : World -> string.
Variable IsSelected : World -> string * bool.
Variable Recording : World -> bool.
Variable IsPending : World -> bool.
Variable Main : World -> string.
Variable Local : World -> string.
Variable Unescape : string -> string.

(** A computation of the shell: it reads and changes the state and logs
    the calls it makes. *)
Definition Act (A : Type) : Type := World -> A * World * list (Event Cmd).

#[local] Instance Act_ret : MRet Act := fun _ a w => (a, w, []).
#[local] Instance Act_bind : MBind Act := fun _ _ k m w =>
  let '(a, w1, t1) := m w in
  let '(b, w2, t2) := k a w1 in
  (b, w2, t1 ++ t2).

Definition call (ev : Event Cmd) : Act unit :=
  fun w => (tt, effect ev w, [ev]).

Definition ask {A : Type} (ev : Event Cmd) (q : World -> A) : Act A :=
  fun w => (q (effect ev w), effect ev w, [ev]).

Definition read {A : Type} (q : World -> A) : Act A :=
  fun w => (q w, w, []).

(** [execute] *)
Definition execute (command : Cmd) : Act unit :=
  call (Command command);;
  pending ← read IsPending;
  (if (pending : bool) then mret tt else call RunPending);;
  main ← read Main;
  if String.eqb main keymap.ViCommand || String.eqb main keymap.ViMove
     || String.eqb main keymap.Vi
  then call CheckCommand
  else call CheckAppend.

(** [updatePosRunHints] *)
Definition updatePosRunHints : Act unit :=
  hint ← ask ResetPostRunIterations resetPostRunIterations;
  '(register, selected) ← read IsSelected;
  recording ← read Recording;
  if String.eqb hint "" && negb selected && negb recording
  then call HintResetPersist
  else if negb (String.eqb hint "") then call (HintPersist hint)
  else if (selected : bool)
  then call (HintPersist (color.Dim ++ "(register: " ++ register ++ ")"))
  else mret tt.

(** [run] *)
Definition run (bind : Bind) (command : option Cmd)
    : Act (bool * string * option string) :=
  (if Macro bind then call (Feed (Unescape (Action bind))) else mret tt);;
  match command with
  | None => mret (false, EmptyString, None)
  | Some command =>
    call GetBuffer;;
    execute command;;
    updatePosRunHints;;
    call UpdateIsearch;;
    call GetBuffer;;
    call (SaveWithCommand bind);;
    ask LineAccepted lineAccepted
  end.

(** [handleUndefined] *)
Definition handleUndefined (bind : Bind) (cmd : option Cmd) : Act unit :=
  if negb (String.eqb (Action bind) "") || bool_decide (is_Some cmd)
  then mret tt
  else
    loc ← read Local;
    if String.eqb loc keymap.Isearch
    then call HintReset;; call CompleterReset
    else mret tt.

(** One pass through the body of the [for] loop of [Readline]. *)
Definition iteration : Act Outcome :=
  call RecordKeys;;
  call FlushUsed;;
  call Refresh;;
  call WaitAvailableKeys;;
  '(bind, command, prefixed) ← ask MatchLocal matchLocal;
  if (prefixed : bool) then mret Continue
  else
    '(accepted, line, err) ← run bind command;
    if (accepted : bool) then mret (Return line err)
    else if bool_decide (is_Some command) then mret Continue
    else
      call UpdateInserted;;
      '(bind, command, prefixed) ← ask MatchMain matchMain;
      if (prefixed : bool) then mret Continue
      else
        '(accepted, line, err) ← run bind command;
        if (accepted : bool) then mret (Return line err)
        else
          handleUndefined bind command;;
          mret Continue.

(** The [for] loop of [Readline], for at most [n] passes: the value
    returned, if the line was accepted within them. *)
Fixpoint Readline_loop (n : nat) : Act (option (string * option string)) :=
  match n with
  | O => mret None
  | S n' =>
    out ← iteration;
    match out with
    | Return line err => mret (Some (line, err))
    | Continue => Readline_loop n'
    end
  end.

(** [Readline], for at most [n] passes of its loop. The two deferred
    calls run when the function returns, the last deferred first. *)
Definition Readline (n : nat) : Act (option (string * option string)) :=
  err ← ask MakeRaw makeRaw;
  match err with
  | Some e => mret (Some (EmptyString, Some e))
  | None =>
    call PrimaryPrint;;
    call Init;;
    r ← Readline_loop n;
    call RefreshTransient;;
    call Restore;;
    mret r
  end.

(** The state in which the local keymap is matched: after the four
    calls that open the pass. *)
Definition at_local_match (w : World) : World :=
  effect MatchLocal
    (effect WaitAvailableKeys
       (effect Refresh (effect FlushUsed (effect RecordKeys w)))).

End Loop.

Arguments Act World Cmd A : clear implicits.

End shell.

(** ** The specification's statements, for comparison *)

Module spec.

(** Case folding, on ASCII letters. *)
Definition is_upper_byte (b : ascii) : bool := between 65 (Z_of_byte b) 90.

Definition lower_byte (b : ascii) : ascii :=
  if is_upper_byte b then byte_of_Z (Z_of_byte b + 32) else b.

Fixpoint lower (s : string) : string :=
  match s with
  | EmptyString => EmptyString
  | String b s' => String (lower_byte b) (lower s')
  end.

Fixpoint has_upper (s : string) : bool :=
  match s with
  | EmptyString => false
  | String b s' => is_upper_byte b || has_upper s'
  end.

(** Smart case: the search is case-insensitive unless the query holds
    an uppercase letter. *)
Definition smart_case_contains (histline query : string) : bool :=
  if has_upper query then Contains histline query
  else Contains (lower histline) (lower query).

(** The test of [InsertMatch] as the specification has it; the query is
    the input line up to the cursor. *)
Definition candidate_matches (substring : bool) (query histline : string)
    : bool :=
  if substring then smart_case_contains histline query
  else HasPrefix histline query.

(** A write is accepted when the length is below the ceiling; a negative
    ceiling is no ceiling. *)
Definition accepts_write (ceiling length : Z) : bool :=
  (ceiling <? 0) || (length <? ceiling).

(** Two or more candidates share a non-empty description. *)
Definition shares_description (vals : list Candidate) : Prop :=
  exists i j ci cj,
    i <> j /\ vals !! i = Some ci /\ vals !! j = Some cj
    /\ Description ci = Description cj /\ Description ci <> EmptyString.


End spec.

(** ** Concrete states *)

Module scenario.

(** The usual SGR escape sequences and keymap names. *)
Definition esc (s : string) : string := String (ascii_of_nat 27) s.

#[global] Instance sgr : color.Colors := {
  color.Reset := esc "[0m";
  color.Bold := esc "[1m";
  color.Dim := esc "[2m";
  color.FgRed := esc "[31m";
  color.FgCyan := esc "[36m"
}.

#[global] Instance modes : keymap.Modes := {
  keymap.Vi := "vi";
  keymap.ViCommand := "vicmd";
  keymap.ViMove := "vimove";
  keymap.Isearch := "isearch"
}.

Definition default_name : string := "default history".

(** A configuration that knows [history-size] only. *)
Definition config (size : Z) (text : string) : Config :=
  mkConfig (fun n => if String.eqb n "history-size" then size else 0)
           (fun n => if String.eqb n "history-size" then text
                     else EmptyString)
           (fun _ => false).

(** The manager as [NewSources] makes it, over an empty in-memory
    source, with [typed] on the input line and the cursor at its end. *)
Definition fresh (size : Z) (text : string) (typed : string)
    : Sources memory :=
  NewSources ([] : memory) default_name (runes_of_string typed)
    (mkCursor (Line_Len (runes_of_string typed)) (-1)) (mkHint EmptyString)
    (config size text).

(** The same with [history-size] unset and [entries] already in the
    source, oldest first. *)
Definition session (entries : list string) (typed : string)
    : Sources memory :=
  set_list {[ default_name := Some (entries : memory) ]}
           (fresh 0 EmptyString typed).

(** The same over a source that keeps its most recent entry at index 0:
    [stored] lists the entries from the most recent on. *)
Definition session_recent_first (stored : list string) (typed : string)
    : Sources recent_first :=
  NewSources (RecentFirst stored) default_name (runes_of_string typed)
    (mkCursor (Line_Len (runes_of_string typed)) (-1)) (mkHint EmptyString)
    (config 0 EmptyString).

(** The top of a history of two lines, with "abc" typed. *)
Definition at_top : Sources memory :=
  set_hpos 2 (session ["ls"; "pwd"]%string "abc").

Definition cand (value description : string) : Candidate :=
  mkCandidate value EmptyString description EmptyString EmptyString.

(** Four flags, sorted by value as [sort.Stable] leaves them: each short
    flag shares its description with its long form, two places away. *)
Definition flags : list Candidate :=
  [cand "--help" "show help"; cand "--verbose" "be verbose";
   cand "-h" "show help"; cand "-v" "be verbose"]%string.

(** A terminal of 80 columns, the width of a string taken as its length
    in bytes, and the sequence that clears to the end of the line. *)
Definition clear_after : string := esc "[0K".

Definition clock : Prompt := mkPrompt (Some "12:00"%string) None.

(** Stand-ins for the Go library in the examples. [compile_parens]
    accepts a pattern when its parentheses are matched, as
    [regexp.Compile] requires; [ascii_IsUpper] is [unicode.IsUpper] on
    ASCII. *)
Fixpoint parens (depth : nat) (s : string) : bool :=
  match s with
  | EmptyString => Nat.eqb depth 0
  | String c s' =>
    if Ascii.eqb c "("%char then parens (Datatypes.S depth) s'
    else if Ascii.eqb c ")"%char then
      match depth with
      | O => false
      | Datatypes.S d => parens d s'
      end
    else parens depth s'
  end.

Definition compile_parens (s : string) : option string :=
  if parens 0 s then Some s else None.

Definition ascii_IsUpper (r : rune) : bool := between 65 r 90.

(** An engine in incremental search over the minibuffer [typed], with
    nothing selected and no automatic insertion. *)
Definition searching (typed : string) : Engine string :=
  mkEngine (mkHint EmptyString) keymap.Isearch [] (mkCursor 0 (-1))
    [] (mkCursor 0 (-1)) (cand EmptyString EmptyString) [] None true false
    (Some (runes_of_string typed))
    (Some (mkCursor (Line_Len (runes_of_string typed)) (-1)))
    None "history" false.

(** A shell whose local keymap binds every key to one command, which
    accepts the line. The state records whether the command has run. *)
Definition accepting_effect (ev : shell.Event unit) (w : bool) : bool :=
  match ev with
  | shell.Command _ => true
  | _ => w
  end.

Definition accepting_local (w : bool) : Bind * option unit * bool :=
  (mkBind "accept-line" false, Some tt, false).

Definition accepting_main (w : bool) : Bind * option unit * bool :=
  (mkBind EmptyString false, None, false).

Definition accepting_lineAccepted (w : bool)
    : bool * string * option string :=
  (w, "ls"%string, None).

Definition accepting_iteration : shell.Act bool unit shell.Outcome :=
  shell.iteration accepting_effect accepting_local
    accepting_main accepting_lineAccepted (fun _ => EmptyString)
    (fun _ => (EmptyString, false)) (fun _ => false) (fun _ => false)
    (fun _ => "emacs"%string) (fun _ => "isearch"%string) (fun s => s).

End scenario.

(** * Properties *)

(** ** UTF-8: what is encoded is read back *)

Lemma Z_of_byte_of_Z z : 0 <= z < 256 -> Z_of_byte (byte_of_Z z) = z.
Proof.
  intros Hz. unfold Z_of_byte, byte_of_Z.
  rewrite N_ascii_embedding by lia. lia.
Qed.

Lemma Z_of_byte_range b : 0 <= Z_of_byte b < 256.
Proof.
  unfold Z_of_byte. pose proof (N_ascii_bounded b). lia.
Qed.

Ltac zbool :=
  repeat match goal with
  | |- context [?a =? ?b] => destruct (Z.eqb_spec a b); try (exfalso; lia)
  end;
  repeat match goal with
  | |- context [if ?c then _ else _] =>
    first [ replace c with true by lia | replace c with false by lia ]
  end.

Lemma valid_rune_spec r :
  valid_rune r = true <-> (0 <= r < 55296 \/ 57344 <= r <= 1114111).
Proof. unfold valid_rune, MaxRune. lia. Qed.

Lemma append_String a s1 s2 :
  (String a s1 ++ s2)%string = String a (s1 ++ s2)%string.
Proof. reflexivity. Qed.

Lemma append_Empty s : (EmptyString ++ s)%string = s.
Proof. reflexivity. Qed.

Lemma runes_of_string_String b0 s1 :
  runes_of_string (String b0 s1) =
    let x0 := Z_of_byte b0 in
    let bad := RuneError :: runes_of_string s1 in
    if x0 <? 128 then x0 :: runes_of_string s1
    else if x0 <? 194 then bad
    else if x0 <? 224 then
      match s1 with
      | String b1 s2 =>
        let x1 := Z_of_byte b1 in
        if cont x1
        then ((x0 - 192) * 64 + (x1 - 128)) :: runes_of_string s2
        else bad
      | _ => bad
      end
    else if x0 <? 240 then
      match s1 with
      | String b1 (String b2 s3) =>
        let x1 := Z_of_byte b1 in
        let x2 := Z_of_byte b2 in
        if between (if x0 =? 224 then 160 else 128) x1
                   (if x0 =? 237 then 159 else 191) && cont x2
        then ((x0 - 224) * 4096 + (x1 - 128) * 64 + (x2 - 128))
               :: runes_of_string s3
        else bad
      | _ => bad
      end
    else if x0 <? 245 then
      match s1 with
      | String b1 (String b2 (String b3 s4)) =>
        let x1 := Z_of_byte b1 in
        let x2 := Z_of_byte b2 in
        let x3 := Z_of_byte b3 in
        if between (if x0 =? 240 then 144 else 128) x1
                   (if x0 =? 244 then 143 else 191) && cont x2 && cont x3
        then ((x0 - 240) * 262144 + (x1 - 128) * 4096
              + (x2 - 128) * 64 + (x3 - 128)) :: runes_of_string s4
        else bad
      | _ => bad
      end
    else bad.
Proof. reflexivity. Qed.

Ltac decode_step :=
  rewrite runes_of_string_String; cbv beta iota zeta;
  rewrite !Z_of_byte_of_Z by lia; unfold cont, between.

Lemma decode1 a s :
  0 <= a < 128 ->
  runes_of_string (String (byte_of_Z a) s) = a :: runes_of_string s.
Proof.
  intros. decode_step.
  zbool. reflexivity.
Qed.

Lemma decode2 a b s :
  2 <= a < 32 -> 0 <= b < 64 ->
  runes_of_string (String (byte_of_Z (192 + a)) (String (byte_of_Z (128 + b)) s))
  = (a * 64 + b) :: runes_of_string s.
Proof.
  intros. decode_step. zbool. f_equal. lia.
Qed.

Lemma decode3 a b c s :
  0 <= a < 16 -> 0 <= b < 64 -> 0 <= c < 64 ->
  (a = 0 -> 32 <= b) -> (a = 13 -> b < 32) ->
  runes_of_string (String (byte_of_Z (224 + a)) (String (byte_of_Z (128 + b))
                  (String (byte_of_Z (128 + c)) s)))
  = (a * 4096 + b * 64 + c) :: runes_of_string s.
Proof.
  intros. decode_step. zbool; f_equal; lia.
Qed.

Lemma decode4 a b c d s :
  0 <= a <= 4 -> 0 <= b < 64 -> 0 <= c < 64 -> 0 <= d < 64 ->
  (a = 0 -> 16 <= b) -> (a = 4 -> b < 16) ->
  runes_of_string (String (byte_of_Z (240 + a)) (String (byte_of_Z (128 + b))
                  (String (byte_of_Z (128 + c)) (String (byte_of_Z (128 + d)) s))))
  = (a * 262144 + b * 4096 + c * 64 + d) :: runes_of_string s.
Proof.
  intros. decode_step. zbool; f_equal; lia.
Qed.

Lemma split64 z :
  0 <= z -> z = 64 * (z / 64) + z mod 64 /\ 0 <= z mod 64 < 64 /\ 0 <= z / 64.
Proof.
  intros Hz. pose proof (Z.div_mod z 64 ltac:(lia)).
  pose proof (Z.mod_pos_bound z 64 ltac:(lia)).
  pose proof (Z.div_pos z 64 Hz ltac:(lia)). lia.
Qed.

Lemma div_4096 r : r / 4096 = r / 64 / 64.
Proof. rewrite Z.div_div by lia. reflexivity. Qed.

Lemma div_262144 r : r / 262144 = r / 64 / 64 / 64.
Proof. rewrite !Z.div_div by lia. reflexivity. Qed.

Lemma decode_encode_valid r s :
  valid_rune r = true ->
  runes_of_string (encode_rune r ++ s) = r :: runes_of_string s.
Proof.
  intros Hv. unfold encode_rune. rewrite Hv. cbn [negb].
  apply valid_rune_spec in Hv.
  assert (Hr : 0 <= r) by lia.
  destruct (split64 r Hr) as (E1 & B1 & P1).
  destruct (split64 (r / 64) P1) as (E2 & B2 & P2).
  destruct (split64 (r / 64 / 64) P2) as (E3 & B3 & P3).
  rewrite div_4096, div_262144.
  destruct (Z.ltb_spec r 128); [|destruct (Z.ltb_spec r 2048); [|destruct (Z.ltb_spec r 65536)]];
    cbn [bytes fold_right]; rewrite ?append_String, ?append_Empty.
  - apply decode1. lia.
  - generalize dependent (r mod 64). generalize dependent (r / 64).
    intros a c; intros.
    rewrite decode2; [f_equal | |]; lia.
  - generalize dependent (r mod 64). generalize dependent ((r / 64) mod 64).
    generalize dependent (r / 64 / 64). generalize dependent (r / 64).
    intros q a b c; intros.
    rewrite decode3; [f_equal | | | | |]; lia.
  - generalize dependent (r mod 64). generalize dependent ((r / 64) mod 64).
    generalize dependent ((r / 64 / 64) mod 64).
    generalize dependent (r / 64 / 64 / 64).
    generalize dependent (r / 64 / 64). generalize dependent (r / 64).
    intros q1 q2 a b c d; intros.
    rewrite decode4; [f_equal | | | | | |]; lia.
Qed.

Lemma decode_encode_invalid r s :
  valid_rune r = false ->
  runes_of_string (encode_rune r ++ s) = RuneError :: runes_of_string s.
Proof.
  intros Hv. unfold encode_rune. rewrite Hv. cbn [negb bytes fold_right].
  rewrite ?append_String, ?append_Empty.
  change 239 with (224 + 15). change 191 with (128 + 63). change 189 with (128 + 61).
  rewrite decode3; [reflexivity | lia ..].
Qed.

Lemma valid_utf8_String b0 s1 :
  valid_utf8 (String b0 s1) =
    let x0 := Z_of_byte b0 in
    if x0 <? 128 then valid_utf8 s1
    else if x0 <? 194 then false
    else if x0 <? 224 then
      match s1 with
      | String b1 s2 => cont (Z_of_byte b1) && valid_utf8 s2
      | _ => false
      end
    else if x0 <? 240 then
      match s1 with
      | String b1 (String b2 s3) =>
        between (if x0 =? 224 then 160 else 128) (Z_of_byte b1)
                (if x0 =? 237 then 159 else 191)
        && cont (Z_of_byte b2) && valid_utf8 s3
      | _ => false
      end
    else if x0 <? 245 then
      match s1 with
      | String b1 (String b2 (String b3 s4)) =>
        between (if x0 =? 240 then 144 else 128) (Z_of_byte b1)
                (if x0 =? 244 then 143 else 191)
        && cont (Z_of_byte b2) && cont (Z_of_byte b3) && valid_utf8 s4
      | _ => false
      end
    else false.
Proof. reflexivity. Qed.

Ltac valid_step :=
  rewrite valid_utf8_String; cbv beta iota zeta;
  rewrite !Z_of_byte_of_Z by lia; unfold cont, between.

Ltac zconds :=
  repeat match goal with
  | |- context [?a =? ?b] => destruct (Z.eqb_spec a b); try (exfalso; lia)
  end;
  repeat match goal with
  | |- context [?a <? ?b] => replace (a <? b) with true by lia
  | |- context [?a <? ?b] => replace (a <? b) with false by lia
  | |- context [?a <=? ?b] => replace (a <=? b) with true by lia
  | |- context [?a <=? ?b] => replace (a <=? b) with false by lia
  end.

Lemma valid1 a s :
  0 <= a < 128 -> valid_utf8 (String (byte_of_Z a) s) = valid_utf8 s.
Proof. intros. valid_step. zconds. reflexivity. Qed.

Lemma valid2 a b s :
  2 <= a < 32 -> 0 <= b < 64 ->
  valid_utf8 (String (byte_of_Z (192 + a)) (String (byte_of_Z (128 + b)) s))
  = valid_utf8 s.
Proof. intros. valid_step. zconds. reflexivity. Qed.

Lemma valid3 a b c s :
  0 <= a < 16 -> 0 <= b < 64 -> 0 <= c < 64 ->
  (a = 0 -> 32 <= b) -> (a = 13 -> b < 32) ->
  valid_utf8 (String (byte_of_Z (224 + a)) (String (byte_of_Z (128 + b))
             (String (byte_of_Z (128 + c)) s)))
  = valid_utf8 s.
Proof. intros. valid_step. zconds; reflexivity. Qed.

Lemma valid4 a b c d s :
  0 <= a <= 4 -> 0 <= b < 64 -> 0 <= c < 64 -> 0 <= d < 64 ->
  (a = 0 -> 16 <= b) -> (a = 4 -> b < 16) ->
  valid_utf8 (String (byte_of_Z (240 + a)) (String (byte_of_Z (128 + b))
             (String (byte_of_Z (128 + c)) (String (byte_of_Z (128 + d)) s))))
  = valid_utf8 s.
Proof. intros. valid_step. zconds; reflexivity. Qed.

Lemma valid_encode_rune r s :
  valid_utf8 (encode_rune r ++ s) = valid_utf8 s.
Proof.
  unfold encode_rune. destruct (valid_rune r) eqn:Hv; cbn [negb].
  - apply valid_rune_spec in Hv.
    assert (Hr : 0 <= r) by lia.
    destruct (split64 r Hr) as (E1 & B1 & P1).
    destruct (split64 (r / 64) P1) as (E2 & B2 & P2).
    destruct (split64 (r / 64 / 64) P2) as (E3 & B3 & P3).
    rewrite div_4096, div_262144.
    destruct (Z.ltb_spec r 128);
      [|destruct (Z.ltb_spec r 2048); [|destruct (Z.ltb_spec r 65536)]];
      cbn [bytes fold_right]; rewrite ?append_String, ?append_Empty.
    + apply valid1. lia.
    + generalize dependent (r mod 64). generalize dependent (r / 64).
      intros a c; intros. apply valid2; lia.
    + generalize dependent (r mod 64). generalize dependent ((r / 64) mod 64).
      generalize dependent (r / 64 / 64). generalize dependent (r / 64).
      intros q a b c; intros. apply valid3; lia.
    + generalize dependent (r mod 64). generalize dependent ((r / 64) mod 64).
      generalize dependent ((r / 64 / 64) mod 64).
      generalize dependent (r / 64 / 64 / 64).
      generalize dependent (r / 64 / 64). generalize dependent (r / 64).
      intros q1 q2 a b c d; intros. apply valid4; lia.
  - cbn [bytes fold_right]. rewrite ?append_String, ?append_Empty.
    change 239 with (224 + 15). change 191 with (128 + 63).
    change 189 with (128 + 61). apply valid3; lia.
Qed.

(** A string made from runes is always well-formed UTF-8. *)
Lemma valid_string_of_runes l : valid_utf8 (string_of_runes l) = true.
Proof.
  induction l as [|r l IH]; [reflexivity|].
  cbn [string_of_runes]. rewrite valid_encode_rune. exact IH.
Qed.

Lemma decode_encode r s :
  runes_of_string (encode_rune r ++ s) = sanitize r :: runes_of_string s.
Proof.
  unfold sanitize. destruct (valid_rune r) eqn:Hv.
  - apply decode_encode_valid, Hv.
  - apply decode_encode_invalid, Hv.
Qed.

(** [[]rune(string(l))] replaces what is not a code point by U+FFFD and
    keeps the rest. *)
Lemma runes_of_string_of_runes l :
  runes_of_string (string_of_runes l) = map sanitize l.
Proof.
  induction l as [|r l IH]; [reflexivity|].
  cbn [string_of_runes map]. rewrite decode_encode, IH. reflexivity.
Qed.

Lemma runes_roundtrip l :
  Forall (fun r => valid_rune r = true) l ->
  runes_of_string (string_of_runes l) = l.
Proof.
  intros Hl. rewrite runes_of_string_of_runes.
  induction Hl as [|r l Hr _ IH]; [reflexivity|].
  cbn [map]. unfold sanitize at 1. rewrite Hr, IH. reflexivity.
Qed.

Lemma length_append_string (s1 s2 : string) :
  String.length (s1 ++ s2) = (String.length s1 + String.length s2)%nat.
Proof.
  induction s1 as [|a s1 IH]; [reflexivity|].
  rewrite append_String. cbn [String.length]. rewrite IH. reflexivity.
Qed.

Lemma length_encode_rune r : (1 <= String.length (encode_rune r))%nat.
Proof.
  unfold encode_rune.
  repeat match goal with |- context [if ?c then _ else _] => destruct c end;
    cbn; lia.
Qed.

(** A string has at least as many bytes as the runes it was made from. *)
Lemma length_string_of_runes l :
  (length l <= String.length (string_of_runes l))%nat.
Proof.
  induction l as [|r l IH]; [reflexivity|].
  cbn [string_of_runes length]. rewrite length_append_string.
  pose proof (length_encode_rune r). lia.
Qed.

Lemma prefix_length (p s : string) :
  String.prefix p s = true -> (String.length p <= String.length s)%nat.
Proof.
  revert s. induction p as [|a p IH]; intros s Hp; [cbn; lia|].
  destruct s as [|b s]; [discriminate|].
  cbn in Hp. destruct (ascii_dec a b); [|discriminate].
  cbn [String.length]. apply IH in Hp. lia.
Qed.

(** The bytes of ASCII text are its runes; cutting the bytes cuts the
    runes. *)
Lemma encode_rune_ascii r : 0 <= r < 128 -> encode_rune r = bytes [r].
Proof.
  intros Hr. unfold encode_rune.
  replace (valid_rune r) with true by (unfold valid_rune, MaxRune; lia).
  cbn [negb]. replace (r <? 128) with true by lia. reflexivity.
Qed.

Lemma substring_string_of_runes (l : list rune) (n : nat) :
  ascii_line l ->
  String.substring 0 n (string_of_runes l) = string_of_runes (take n l).
Proof.
  intros Hl. revert n. induction Hl as [|r l Hr _ IH]; intros n.
  - destruct n; reflexivity.
  - destruct n as [|n]; cbn [take string_of_runes].
    + rewrite encode_rune_ascii by exact Hr. reflexivity.
    + rewrite encode_rune_ascii by exact Hr.
      cbn [bytes fold_right]. rewrite append_String, append_Empty.
      cbn [String.substring]. rewrite IH. reflexivity.
Qed.

Lemma length_string_of_runes_ascii (l : list rune) :
  ascii_line l -> String.length (string_of_runes l) = length l.
Proof.
  induction 1 as [|r l Hr _ IH]; [reflexivity|].
  cbn [string_of_runes length]. rewrite encode_rune_ascii by exact Hr.
  cbn [bytes fold_right]. rewrite append_String, append_Empty.
  cbn [String.length]. rewrite IH. reflexivity.
Qed.

(** ** Go integers *)

Lemma wrap64_small z : min_int <= z <= max_int -> wrap64 z = z.
Proof.
  unfold min_int, max_int, wrap64. intros Hz.
  rewrite Z.mod_small by lia. lia.
Qed.

(** ** History: walking *)

Section WalkFacts.

Context {S : Type} {source : Source S} {colors : color.Colors}.

Lemma Current_frame (h h' : Sources S) :
  list_ h' = list_ h -> names h' = names h -> sourcePos h' = sourcePos h ->
  Current h' = Current h.
Proof.
  intros Hl Hn Hs. unfold Current, index_names. rewrite Hl, Hn, Hs.
  reflexivity.
Qed.

Lemma setLineCursorMatch_frame next (h : Sources S) :
  same_sources h (setLineCursorMatch next h)
  /\ hpos (setLineCursorMatch next h) = hpos h
  /\ buf (setLineCursorMatch next h) = buf h
  /\ line (setLineCursorMatch next h) = runes_of_string next.
Proof.
  unfold setLineCursorMatch, same_sources.
  repeat match goal with |- context [if ?c then _ else _] => destruct c end;
    cbn; repeat split; reflexivity.
Qed.

(** C10: [Walk] at a boundary of the history returns the state it was
    given: the input line, the cursor, [hpos] and the stashed buffer
    [buf], like every other field, are unchanged. The boundaries are: no
    active source or an empty one, a move down ([delta < 0]) from
    [hpos = 0], a move up ([delta > 0]) from [hpos = Len]. *)
Theorem Walk_noop_at_boundaries (h : Sources S) (delta : Z) :
  (Current h = Ok None \/
   exists src, Current h = Ok (Some src) /\
     (Len src = 0 \/ (delta < 0 /\ hpos h = 0)
      \/ (0 < delta /\ hpos h = Len src))) ->
  Walk delta h = Ok h.
Proof.
  intros [Hnil | (src & Hsrc & Hb)]; unfold Walk.
  - rewrite Hnil. reflexivity.
  - rewrite Hsrc. cbn [mbind res_bind].
    destruct (Z.eqb_spec (Len src) 0) as [|Hne]; [reflexivity|].
    destruct Hb as [Hb | [[Hd Hp] | [Hd Hp]]]; [contradiction | |].
    + replace (delta <? 0) with true by lia.
      replace (hpos h =? 0) with true by lia. reflexivity.
    + replace (0 <? delta) with true by lia.
      replace (hpos h =? Len src) with true by lia.
      rewrite orb_true_r. reflexivity.
Qed.

Lemma Walk_up (h : Sources S) (src : S) (k : Z) :
  Current h = Ok (Some src) ->
  0 <= hpos h -> 1 <= k -> hpos h + k <= Len src -> Len src <= max_int ->
  exists h1, Walk k h = Ok h1
    /\ hpos h1 = hpos h + k
    /\ same_sources h h1
    /\ buf h1 = (if (hpos h =? 0) && (k =? 1)
                 then string_of_runes (line h) else buf h).
Proof.
  intros Hsrc Hp Hk Hle Hmax. unfold Walk. rewrite Hsrc.
  cbn [mbind res_bind].
  assert (Hadd : add64 (hpos h) k = hpos h + k).
  { apply wrap64_small. unfold min_int, max_int in *. lia. }
  rewrite Hadd.
  replace (Len src =? 0) with false by lia.
  replace (k <? 0) with false by lia.
  replace (hpos h =? Len src) with false by lia.
  rewrite andb_false_r. cbn [andb orb].
  replace ((hpos h =? 0) && (hpos h + k =? 1))
    with ((hpos h =? 0) && (k =? 1)) by lia.
  set (h0 := if (hpos h =? 0) && (k =? 1)
             then set_buf (string_of_runes (line h)) h else h).
  assert (F0 : same_sources h h0 /\ hpos h0 = hpos h /\
               buf h0 = (if (hpos h =? 0) && (k =? 1)
                         then string_of_runes (line h) else buf h)).
  { subst h0. unfold same_sources.
    destruct ((hpos h =? 0) && (k =? 1)); cbn; repeat split; reflexivity. }
  destruct F0 as (Fs & Fh & Fb). clearbody h0.
  rewrite Fh, Hadd.
  unfold Walk_clamp. cbn [hpos set_hpos].
  replace (hpos h + k >? Len src) with false by lia.
  replace (hpos h + k <? 0) with false by lia.
  replace (hpos h + k =? 0) with false by lia.
  set (h1 := set_hpos (hpos h + k) h0).
  assert (F1 : same_sources h h1 /\ hpos h1 = hpos h + k /\ buf h1 = buf h0).
  { subst h1. unfold same_sources in *. cbn. tauto. }
  destruct F1 as (Gs & Gh & Gb). clearbody h1.
  assert (Hfin : forall next,
    hpos (setLineCursorMatch next h1) = hpos h + k
    /\ same_sources h (setLineCursorMatch next h1)
    /\ buf (setLineCursorMatch next h1) = buf h0).
  { intros next.
    destruct (setLineCursorMatch_frame next h1) as (Ss & Sh & Sb & _).
    unfold same_sources in *. rewrite Sh, Sb. intuition congruence. }
  rewrite <- Fb.
  replace (hpos h1 =? 0) with false by lia.
  destruct (getLineHistory h1) as [[[|i its]]|].
  2: { eexists; split; [reflexivity|]. apply Hfin. }
  all: destruct (GetLine src _) as [ln [err|]].
  all: eexists; split; [reflexivity|]; try apply Hfin.
  all: unfold same_sources in *; cbn; intuition congruence.
Qed.

Lemma Walk_down (h1 : Sources S) (src : S) (k : Z) :
  Current h1 = Ok (Some src) ->
  1 <= k <= hpos h1 -> hpos h1 <= Len src -> Len src <= max_int ->
  exists h2, Walk (- k) h1 = Ok h2
    /\ hpos h2 = hpos h1 - k
    /\ same_sources h1 h2
    /\ buf h2 = buf h1
    /\ (hpos h1 = k -> line h2 = runes_of_string (buf h1)).
Proof.
  intros Hsrc Hk Hle Hmax. unfold Walk. rewrite Hsrc.
  cbn [mbind res_bind].
  assert (Hadd : add64 (hpos h1) (- k) = hpos h1 - k).
  { apply wrap64_small. unfold min_int, max_int in *. lia. }
  rewrite Hadd.
  replace (Len src =? 0) with false by lia.
  replace (hpos h1 =? 0) with false by lia.
  replace (0 <? - k) with false by lia.
  rewrite andb_false_r. cbn [andb orb].
  unfold Walk_clamp. cbn [hpos set_hpos]. rewrite ?Hadd.
  replace (hpos h1 - k >? Len src) with false by lia.
  replace (hpos h1 - k <? 0) with false by lia.
  destruct (Z.eqb_spec (hpos h1 - k) 0) as [Hz | Hnz].
  - unfold set_line_cursor_end. cbn. rewrite Hz. cbn.
    eexists; split; [reflexivity|]. unfold same_sources. cbn.
    repeat split; reflexivity.
  - cbn [hpos set_hpos].
    replace (hpos h1 - k =? 0) with false by lia.
    set (h' := set_hpos (hpos h1 - k) h1).
    assert (F : same_sources h1 h' /\ hpos h' = hpos h1 - k
                /\ buf h' = buf h1).
    { subst h'. unfold same_sources. cbn. repeat split; reflexivity. }
    destruct F as (Fs & Fh & Fb). clearbody h'.
    assert (Hfin : forall next,
      hpos (setLineCursorMatch next h') = hpos h1 - k
      /\ same_sources h1 (setLineCursorMatch next h')
      /\ buf (setLineCursorMatch next h') = buf h1
      /\ (hpos h1 = k ->
          line (setLineCursorMatch next h') = runes_of_string (buf h1))).
    { intros next.
      destruct (setLineCursorMatch_frame next h') as (Ss & Sh & Sb & _).
      unfold same_sources in *. rewrite Sh, Sb.
      repeat split; try intuition congruence. lia. }
    destruct (getLineHistory h') as [[[|i its]]|].
    2: { eexists; split; [reflexivity|]. apply Hfin. }
    all: destruct (GetLine src _) as [ln [err|]].
    all: eexists; split; [reflexivity|]; try apply Hfin.
    all: destruct Fs as (? & ? & ? & ? & ? & ?).
    all: unfold same_sources; cbn; repeat split; try assumption.
    all: intros; lia.
Qed.

(** [Walk(+k)] then [Walk(-k)], within the bounds of the active source:
    [hpos] is back where it was. Back at [hpos = 0] the line is what
    [buf] held after the first walk: the live line when [k = 1] (up to
    the replacement of what is not a code point), and whatever was
    stashed earlier when [k >= 2], since only a walk that lands on
    [hpos = 1] stashes the live line. *)
Lemma Walk_there_and_back (h : Sources S) (src : S) (k : Z) :
  Current h = Ok (Some src) ->
  0 <= hpos h -> 1 <= k -> hpos h + k <= Len src -> Len src <= max_int ->
  exists h1 h2, Walk k h = Ok h1 /\ Walk (- k) h1 = Ok h2
    /\ hpos h2 = hpos h
    /\ (hpos h = 0 -> k = 1 -> line h2 = map sanitize (line h))
    /\ (hpos h = 0 -> 2 <= k -> line h2 = runes_of_string (buf h)).
Proof.
  intros Hsrc Hp Hk Hle Hmax.
  destruct (Walk_up h src k Hsrc Hp Hk Hle Hmax)
    as (h1 & W1 & P1 & (Sl & Sn & Sp & _) & B1).
  assert (Hsrc1 : Current h1 = Ok (Some src)).
  { rewrite (Current_frame h h1) by assumption. exact Hsrc. }
  destruct (Walk_down h1 src k Hsrc1 ltac:(lia) ltac:(lia) Hmax)
    as (h2 & W2 & P2 & _ & _ & L2).
  exists h1, h2. repeat split; try assumption; try lia.
  - intros H0 H1. rewrite L2 by lia. rewrite B1.
    replace (hpos h =? 0) with true by lia.
    replace (k =? 1) with true by lia. cbn [andb].
    apply runes_of_string_of_runes.
  - intros H0 H1. rewrite L2 by lia. rewrite B1.
    replace (k =? 1) with false by lia. rewrite andb_false_r. reflexivity.
Qed.

End WalkFacts.

(** ** History: writing *)

Lemma blank_nonempty ln : blank ln = false -> ln <> EmptyString.
Proof. intros Hb ->. discriminate Hb. Qed.

Section WriteFacts.

Context {S : Type} {source : Source S} {colors : color.Colors}.

(** [range] visits each key once. *)
Lemma range_order_NoDup (order : list string) (h : Sources S) :
  range_order order h -> NoDup order.
Proof.
  unfold range_order. intros Hp. rewrite Hp.
  apply NoDup_fst_map_to_list.
Qed.

(** The sources that [Write_range] does not visit are left alone. *)
Lemma Write_range_other (order : list string) ln (h : Sources S) name :
  name ∉ order ->
  list_ (Write_range order ln h) !! name = list_ h !! name.
Proof.
  revert h. induction order as [|n rest IH]; intros h Hn; [reflexivity|].
  apply not_elem_of_cons in Hn as [Hne Hn].
  cbn [Write_range].
  destruct (mjoin (list_ h !! n)) as [src|]; [|apply IH, Hn].
  destruct ((maxEntries h =? 0) || (maxEntries h >=? Len src));
    [apply IH, Hn|].
  destruct (GetLine src (sub64 (Len src) 1)) as [lst err].
  destruct (bool_decide (err = None) && negb (String.eqb lst "")
            && String.eqb lst ln); [reflexivity|].
  destruct (SrcWrite src ln) as [src' [i e]].
  rewrite IH by exact Hn.
  destruct e; cbn; rewrite lookup_insert_ne by congruence; reflexivity.
Qed.

Lemma mjoin_lookup (m : gmap string (option S)) name src :
  mjoin (m !! name) = Some src <-> m !! name = Some (Some src).
Proof.
  destruct (m !! name) as [[s|]|]; cbn; split; intros Hx;
    try discriminate; congruence.
Qed.

(** Each source is either left as it was or receives the line, and it
    receives it only if the line differs from what [GetLine(Len-1)]
    returns. *)
Lemma Write_range_no_repeat (order : list string) ln (h : Sources S) :
  NoDup order -> ln <> EmptyString ->
  forall name,
    list_ (Write_range order ln h) !! name = list_ h !! name
    \/ exists src,
         list_ h !! name = Some (Some src)
         /\ list_ (Write_range order ln h) !! name
            = Some (Some (SrcWrite src ln).1)
         /\ GetLine src (sub64 (Len src) 1) <> (ln, None).
Proof.
  intros Hnd Hln. revert h.
  induction Hnd as [|n rest Hn Hnd IH]; intros h name; [left; reflexivity|].
  cbn [Write_range].
  destruct (mjoin (list_ h !! n)) as [src|] eqn:Hsrc; [|apply IH].
  destruct ((maxEntries h =? 0) || (maxEntries h >=? Len src));
    [apply IH|].
  destruct (GetLine src (sub64 (Len src) 1)) as [lst err] eqn:Hlast.
  destruct (bool_decide (err = None) && negb (String.eqb lst "")
            && String.eqb lst ln) eqn:Hdup; [left; reflexivity|].
  destruct (SrcWrite src ln) as [src' [i e]] eqn:Hw.
  set (h' := match e with
             | Some e0 => _
             | None => _
             end).
  assert (Hl' : list_ h' = <[n := Some src']> (list_ h)).
  { subst h'. destruct e; reflexivity. }
  destruct (decide (name = n)) as [->|Hne].
  - right. exists src. rewrite Write_range_other by exact Hn.
    rewrite Hl', lookup_insert_eq, Hw. apply mjoin_lookup in Hsrc.
    repeat split; try assumption.
    intros Heq. rewrite Hlast in Heq. injection Heq as E1 E2. subst lst err.
    rewrite bool_decide_eq_true_2 in Hdup by reflexivity.
    rewrite String.eqb_refl in Hdup.
    apply String.eqb_neq in Hln. rewrite Hln in Hdup. discriminate.
  - destruct (IH h' name) as [Hsame | (s & Hs & Hs' & Hd)].
    + left. rewrite Hsame, Hl'. apply lookup_insert_ne. congruence.
    + right. exists s. rewrite Hl', lookup_insert_ne in Hs by congruence.
      auto.
Qed.

(** When every source ends with the line, nothing is written. *)
Lemma Write_range_all_repeat (order : list string) ln (h : Sources S) :
  ln <> EmptyString ->
  (forall name src, list_ h !! name = Some (Some src) ->
     GetLine src (sub64 (Len src) 1) = (ln, None)) ->
  Write_range order ln h = h.
Proof.
  intros Hln Hall. induction order as [|n rest IH]; [reflexivity|].
  cbn [Write_range].
  destruct (mjoin (list_ h !! n)) as [src|] eqn:Hsrc; [|exact IH].
  destruct ((maxEntries h =? 0) || (maxEntries h >=? Len src));
    [exact IH|].
  apply mjoin_lookup in Hsrc. rewrite (Hall _ _ Hsrc).
  rewrite bool_decide_eq_true_2 by reflexivity.
  rewrite String.eqb_refl. apply String.eqb_neq in Hln. rewrite Hln.
  reflexivity.
Qed.

(** The guard on [maxEntries]: with a positive ceiling, a source that
    has not grown past the ceiling is never written. *)
Lemma Write_range_ceiling (order : list string) ln (h : Sources S) :
  (forall name src, list_ h !! name = Some (Some src) ->
     Len src <= maxEntries h) ->
  Write_range order ln h = h.
Proof.
  intros Hall. induction order as [|n rest IH]; [reflexivity|].
  cbn [Write_range].
  destruct (mjoin (list_ h !! n)) as [src|] eqn:Hsrc; [|exact IH].
  apply mjoin_lookup in Hsrc. specialize (Hall _ _ Hsrc).
  replace (maxEntries h >=? Len src) with true by lia.
  rewrite orb_true_r. exact IH.
Qed.

(** [Write] leaves the input line as it is. *)
Lemma Write_range_line (order : list string) ln (h : Sources S) :
  line (Write_range order ln h) = line h.
Proof.
  revert h. induction order as [|n rest IH]; intros h; [reflexivity|].
  cbn [Write_range].
  destruct (mjoin (list_ h !! n)) as [src|]; [|apply IH].
  destruct ((maxEntries h =? 0) || (maxEntries h >=? Len src));
    [apply IH|].
  destruct (GetLine src (sub64 (Len src) 1)) as [lst err].
  destruct (bool_decide (err = None) && negb (String.eqb lst "")
            && String.eqb lst ln); [reflexivity|].
  destruct (SrcWrite src ln) as [src' [i e]].
  rewrite IH. destruct e; reflexivity.
Qed.

Lemma Write_line (order : list string) (inf : bool) (h : Sources S) :
  line (Write order inf h) = line h.
Proof.
  unfold Write. destruct inf; [reflexivity|].
  destruct (blank (string_of_runes (line h))); [reflexivity|].
  apply Write_range_line.
Qed.

(** Each source is left as it was by [Write] or receives the line, and
    receives it only if its entry at [Len-1] differs from the line. *)
Lemma Write_no_repeat (order : list string) (inf : bool) (h : Sources S) :
  NoDup order ->
  forall name,
    list_ (Write order inf h) !! name = list_ h !! name
    \/ exists src,
         list_ h !! name = Some (Some src)
         /\ list_ (Write order inf h) !! name
            = Some (Some (SrcWrite src (string_of_runes (line h))).1)
         /\ GetLine src (sub64 (Len src) 1)
            <> (string_of_runes (line h), None).
Proof.
  intros Hnd name. unfold Write. destruct inf; [left; reflexivity|].
  destruct (blank (string_of_runes (line h))) eqn:Hb; [left; reflexivity|].
  apply blank_nonempty in Hb. apply Write_range_no_repeat; assumption.
Qed.

(** C5, amended: [Write] never stores in a source a line identical to
    the entry that source returns for [GetLine(Len-1)]. Each source is
    left unchanged or receives the line, and receives it only when its
    entry at [Len-1] differs from the line; when the line is the entry
    at [Len-1] of every source, every source is left unchanged. [Write]
    leaves the input line as it is, and of two consecutive writes of it,
    in whatever order each visits the sources, at most one stores the
    line in a source that returns at [Len-1] the line just written to
    it. *)
Theorem Write_skips_repeated_last (order : list string) (inf : bool)
    (h : Sources S) :
  NoDup order ->
  (forall name,
     list_ (Write order inf h) !! name = list_ h !! name
     \/ exists src,
          list_ h !! name = Some (Some src)
          /\ list_ (Write order inf h) !! name
             = Some (Some (SrcWrite src (string_of_runes (line h))).1)
          /\ GetLine src (sub64 (Len src) 1)
             <> (string_of_runes (line h), None))
  /\ ((forall name src, list_ h !! name = Some (Some src) ->
         GetLine src (sub64 (Len src) 1)
         = (string_of_runes (line h), None)) ->
      list_ (Write order inf h) = list_ h)
  /\ line (Write order inf h) = line h
  /\ (forall (order2 : list string) (inf2 : bool) name src,
        NoDup order2 ->
        list_ h !! name = Some (Some src) ->
        (let src' := (SrcWrite src (string_of_runes (line h))).1 in
         GetLine src' (sub64 (Len src') 1)
         = (string_of_runes (line h), None)) ->
        let h1 := Write order inf h in
        let h2 := Write order2 inf2 h1 in
        list_ h1 !! name = list_ h !! name
        \/ list_ h2 !! name = list_ h1 !! name).
Proof.
  intros Hnd. split; [|split; [|split]].
  - apply Write_no_repeat, Hnd.
  - intros Hall. unfold Write. destruct inf; [reflexivity|].
    destruct (blank (string_of_runes (line h))) eqn:Hb; [reflexivity|].
    apply blank_nonempty in Hb. rewrite Write_range_all_repeat; auto.
  - apply Write_line.
  - intros order2 inf2 name src Hnd2 Hsrc Hback h1 h2.
    destruct (Write_no_repeat order inf h Hnd name)
      as [Hsame | (s & Hs & Hs1 & _)]; [left; exact Hsame|].
    right. fold h1 in Hs1.
    assert (s = src) by congruence. subst s.
    destruct (Write_no_repeat order2 inf2 h1 Hnd2 name)
      as [Hsame | (s2 & Hs2 & _ & Hdiff)]; [exact Hsame|].
    exfalso. apply Hdiff.
    assert (s2 = (SrcWrite src (string_of_runes (line h))).1)
      by congruence. subst s2.
    subst h1. rewrite Write_line. exact Hback.
Qed.

End WriteFacts.

(** For the in-memory source, [GetLine(Len-1)] is the last line written. *)
Lemma memory_GetLine_last (m : memory) ln :
  Len m <= max_int ->
  (GetLine m (sub64 (Len m) 1) = (ln, None) <-> last m = Some ln).
Proof.
  intros Hmax. cbn [Len GetLine memory_Source] in *.
  unfold sub64. rewrite wrap64_small by (unfold min_int, max_int in *; lia).
  unfold memory_GetLine.
  destruct m as [|x m] using rev_ind.
  - cbn. split; discriminate.
  - clear IHm. rewrite last_snoc, length_app. cbn [length].
    destruct (Z.ltb_spec (Z.of_nat (length m + 1) - 1) 0); [lia|].
    replace (Z.to_nat (Z.of_nat (length m + 1) - 1)) with (length m) by lia.
    pose proof (list_lookup_middle m [] x (length m) eq_refl) as Hx.
    unfold memory in *. rewrite Hx. split; congruence.
Qed.

(** The in-memory source returns at [Len-1] the line just written. *)
Lemma memory_reads_back (m : memory) ln :
  Len m < max_int ->
  let m' := (SrcWrite m ln).1 in
  GetLine m' (sub64 (Len m') 1) = (ln, None).
Proof.
  intros Hmax m'. apply memory_GetLine_last.
  - subst m'. cbn [Len SrcWrite memory_Source fst] in *.
    rewrite length_app. cbn [length]. lia.
  - subst m'. cbn [SrcWrite memory_Source fst]. apply last_snoc.
Qed.

(** ** History: searching *)

Lemma HasPrefix_spec (s p : string) :
  HasPrefix s p = true <-> exists t, s = (p ++ t)%string.
Proof.
  unfold HasPrefix. revert s. induction p as [|a p IH]; intros s.
  - split; [exists s; reflexivity | destruct s; reflexivity].
  - destruct s as [|b s]; cbn [String.prefix].
    + split; [discriminate | intros [t Ht]; discriminate].
    + destruct (ascii_dec a b) as [->|Hne].
      * rewrite IH. split; intros [t Ht]; exists t.
        -- rewrite append_String. congruence.
        -- rewrite append_String in Ht. congruence.
      * split; [discriminate|]. intros [t Ht].
        rewrite append_String in Ht. congruence.
Qed.

(** [Contains] is exact: the bytes of [q] stand in [s], one after the
    other, whatever their case. *)
Lemma Contains_spec (s q : string) :
  Contains s q = true <-> exists a b, s = (a ++ q ++ b)%string.
Proof.
  induction s as [|c s IH]; cbn [Contains].
  - rewrite orb_false_r. fold (HasPrefix "" q). rewrite HasPrefix_spec.
    split.
    + intros [t Ht]. exists EmptyString, t. exact Ht.
    + intros (a & b & Hab). destruct a; [exists b; exact Hab|discriminate].
  - rewrite orb_true_iff. fold (HasPrefix (String c s) q).
    rewrite HasPrefix_spec, IH. split.
    + intros [[t Ht] | (a & b & Hab)].
      * exists EmptyString, t. exact Ht.
      * exists (String c a), b. rewrite append_String. congruence.
    + intros (a & b & Hab). destruct a as [|c' a].
      * left. exists b. exact Hab.
      * right. rewrite append_String in Hab. exists a, b. congruence.
Qed.

Section MatchFacts.

Context {S : Type} {source : Source S} {colors : color.Colors}.

(** Without [substring], the whole input line must start the history
    line; the test on the lengths adds nothing. *)
Lemma candidate_matches_prefix (mline : Line) cur histline :
  candidate_matches mline cur false histline
  = Ok (HasPrefix histline (string_of_runes mline)).
Proof.
  unfold candidate_matches. f_equal.
  destruct (HasPrefix histline (string_of_runes mline)) eqn:Hp.
  - apply prefix_length in Hp.
    pose proof (length_string_of_runes mline).
    destruct (Z.ltb_spec (len histline) (Line_Len mline)) as [Hlt|];
      [|reflexivity].
    unfold len, Line_Len in Hlt. lia.
  - rewrite orb_true_r. reflexivity.
Qed.

(** With [substring] and the cursor at the end of the line, the history
    line must contain the whole input line. *)
Lemma candidate_matches_substring_end (mline : Line) c histline :
  Line_Len mline <= Pos c ->
  candidate_matches mline (Some c) true histline
  = Ok (Contains histline (string_of_runes mline)).
Proof.
  intros Hc. unfold candidate_matches. cbn [mbind res_bind].
  destruct (Z.ltb_spec (Pos c) (Line_Len mline)); [lia|].
  cbn [mbind res_bind]. rewrite valid_string_of_runes. reflexivity.
Qed.

(** With [substring] and the cursor inside an ASCII line, the history
    line must contain the part of the input line before the cursor. *)
Lemma candidate_matches_substring_cut (mline : Line) c histline :
  ascii_line mline -> 0 <= Pos c < Line_Len mline ->
  candidate_matches mline (Some c) true histline
  = Ok (Contains histline (string_of_runes (take (Z.to_nat (Pos c)) mline))).
Proof.
  intros Ha Hc. unfold candidate_matches. cbn [mbind res_bind].
  destruct (Z.ltb_spec (Pos c) (Line_Len mline)); [|lia].
  unfold slice_to, len. rewrite length_string_of_runes_ascii by exact Ha.
  destruct (Z.ltb_spec (Pos c) 0); [lia|].
  destruct (Z.ltb_spec (Z.of_nat (length mline)) (Pos c)) as [Hx|_];
    [unfold Line_Len in *; lia|].
  cbn [orb mbind res_bind].
  rewrite substring_string_of_runes by exact Ha.
  rewrite valid_string_of_runes. reflexivity.
Qed.

(** What the loop of [match] finds is a line of the source that passed
    the test. *)
Lemma match_loop_sound fuel (history : S) mline cur fwd regex histPos l p :
  match_loop fuel history mline cur fwd regex histPos
  = Ok (Some (l, p, true)) ->
  GetLine history p = (l, None)
  /\ candidate_matches mline cur regex l = Ok true.
Proof.
  revert histPos. induction fuel as [|fuel IH]; intros histPos;
    cbn [match_loop]; [done|].
  destruct (negb _); [done|].
  set (hp := if fwd then add64 histPos 1 else sub64 histPos 1).
  destruct (GetLine history hp) as [histline [err|]] eqn:Hg; [done|].
  destruct (candidate_matches mline cur regex histline) as [[|]|msg] eqn:Hm;
    cbn [mbind res_bind].
  - intros Heq. injection Heq as <- <-. split; assumption.
  - apply IH.
  - done.
Qed.

(** The loop of [match] ends before its fuel does. *)
Lemma match_loop_fuel fuel (history : S) mline cur (fwd regex : bool)
    (histPos : Z) :
  in_int (Len history) -> in_int histPos ->
  (Z.max (if fwd then Len history - histPos else histPos) 0
   < Z.of_nat fuel) ->
  match_loop fuel history mline cur fwd regex histPos <> Ok None.
Proof.
  unfold in_int, min_int, max_int. intros HL.
  revert histPos. induction fuel as [|fuel IH]; intros histPos HP Hf;
    [lia|].
  cbn [match_loop]. destruct fwd.
  - destruct (Z.ltb_spec histPos (Len history)); cbn [negb];
      [|discriminate].
    unfold add64. rewrite wrap64_small
      by (unfold min_int, max_int; lia).
    destruct (GetLine history _) as [histline [err|]]; [discriminate|].
    destruct (candidate_matches mline cur regex histline) as [[|]|msg];
      cbn [mbind res_bind]; try discriminate.
    apply IH; lia.
  - destruct (Z.ltb_spec 0 histPos); cbn [negb]; [|discriminate].
    unfold sub64. rewrite wrap64_small
      by (unfold min_int, max_int; lia).
    destruct (GetLine history _) as [histline [err|]]; [discriminate|].
    destruct (candidate_matches mline cur regex histline) as [[|]|msg];
      cbn [mbind res_bind]; try discriminate.
    apply IH; lia.
Qed.

Lemma wrap64_in_int z : in_int (wrap64 z).
Proof.
  unfold in_int, wrap64, min_int, max_int.
  pose proof (Z.mod_pos_bound (z + 2 ^ 63) (2 ^ 64) ltac:(lia)). lia.
Qed.

Lemma match_start_in_int (history : S) usePos fwd (h : Sources S) :
  in_int (Len history) -> in_int (match_start history usePos fwd h).
Proof.
  intros HL. unfold match_start.
  destruct (usePos && (0 <? hpos h)); [apply wrap64_in_int|].
  destruct fwd; [|exact HL]. unfold in_int, min_int, max_int. lia.
Qed.

(** [match] returns: its loop never runs out of fuel. *)
Lemma match_returns (mline : Line) cur usePos fwd regex (h : Sources S) :
  (forall src, Current h = Ok (Some src) -> in_int (Len src)) ->
  match_ mline cur usePos fwd regex h <> Ok None.
Proof.
  intros HL. unfold match_.
  destruct (Z.of_nat (size (list_ h)) =? 0); [discriminate|].
  destruct (Current h) as [[src|]|msg] eqn:Hc; cbn [mbind res_bind];
    try discriminate.
  specialize (HL src eq_refl).
  apply match_loop_fuel; [exact HL | apply match_start_in_int, HL|].
  unfold match_fuel. destruct fwd; lia.
Qed.

(** [InsertMatch] returns, and it either leaves the state as it was or
    installs a line of the active source that passed the test, with
    [hpos] set from its index. *)
Lemma InsertMatch_sound (mline : Line) cur usePos fwd regex
    (h : Sources S) :
  (forall src, Current h = Ok (Some src) -> in_int (Len src)) ->
  match InsertMatch mline cur usePos fwd regex h with
  | Panic _ => True
  | Ok None => False
  | Ok (Some h') =>
    h' = h \/
    exists src l p,
      Current h = Ok (Some src)
      /\ GetLine src p = (l, None)
      /\ candidate_matches mline cur regex l = Ok true
      /\ line h' = runes_of_string l
      /\ hpos h' = sub64 (Len src) p
  end.
Proof.
  intros HL. unfold InsertMatch.
  destruct (Z.of_nat (size (list_ h)) =? 0) eqn:Hsz; [left; reflexivity|].
  destruct (Current h) as [[src|]|msg] eqn:Hc; cbn [mbind res_bind];
    [|left; reflexivity|exact I].
  pose proof (match_returns mline cur usePos fwd regex h) as Hret.
  rewrite Hc in Hret. specialize (Hret HL).
  destruct (match_ mline cur usePos fwd regex h)
    as [[[[l p] [|]]|]|msg] eqn:Hm; cbn [mbind res_bind];
    [|left; reflexivity|congruence|exact I].
  right. exists src, l, p. split; [reflexivity|].
  unfold match_ in Hm. rewrite Hsz, Hc in Hm. cbn [mbind res_bind] in Hm.
  apply match_loop_sound in Hm as [Hg Ht].
  repeat split; assumption.
Qed.

(** What the test of [match] computes. With [substring] the history
    line must contain, byte for byte, the input line, cut at the cursor
    when the cursor stands inside it (the cut is stated for ASCII
    lines); without [substring] it must start with the whole input line.
    [InsertMatch] returns, and the only line it installs is a line of the
    active source that passed this test. *)
Lemma InsertMatch_matches_literally (mline : Line) (c : Cursor)
    (cur : option Cursor) (usePos fwd substring : bool)
    (histline : string) (h : Sources S) :
  (Line_Len mline <= Pos c ->
     candidate_matches mline (Some c) true histline = Ok true
     <-> exists a b,
           histline = (a ++ string_of_runes mline ++ b)%string)
  /\ (ascii_line mline -> 0 <= Pos c < Line_Len mline ->
        candidate_matches mline (Some c) true histline = Ok true
        <-> exists a b,
              histline
              = (a ++ string_of_runes (take (Z.to_nat (Pos c)) mline)
                   ++ b)%string)
  /\ (candidate_matches mline cur false histline = Ok true
      <-> exists b, histline = (string_of_runes mline ++ b)%string)
  /\ ((forall src, Current h = Ok (Some src) -> in_int (Len src)) ->
      match InsertMatch mline cur usePos fwd substring h with
      | Panic _ => True
      | Ok None => False
      | Ok (Some h') =>
        h' = h \/
        exists src l p,
          Current h = Ok (Some src)
          /\ GetLine src p = (l, None)
          /\ candidate_matches mline cur substring l = Ok true
          /\ line h' = runes_of_string l
          /\ hpos h' = sub64 (Len src) p
      end).
Proof.
  split; [|split; [|split]].
  - intros Hc. rewrite candidate_matches_substring_end by exact Hc.
    rewrite <- Contains_spec. split; congruence.
  - intros Ha Hc. rewrite candidate_matches_substring_cut by assumption.
    rewrite <- Contains_spec. split; congruence.
  - rewrite candidate_matches_prefix, <- HasPrefix_spec.
    split; congruence.
  - apply InsertMatch_sound.
Qed.

End MatchFacts.

(** ** Completion: the buffer handed to the commands *)

(** C9: [GetBuffer] hands out the incremental-search minibuffer and its
    cursor (with a new selection over them) whenever the search cursor is
    not nil, whatever candidate is selected; with a nil search cursor it
    hands out the completed line and its cursor when the selected
    candidate has a value, and the input line, cursor and selection
    otherwise, and only then. *)
Theorem GetBuffer_precedence (Regexp : Type) (e : Engine Regexp) :
  (isearchCur e <> None ->
     GetBuffer e
     = (the_isearchBuf, the_isearchCur,
        NewSelection the_isearchBuf the_isearchCur)
     /\ line_at e (GetBuffer e).1.1 = isearchBuf e
     /\ cursor_at e (GetBuffer e).1.2 = isearchCur e)
  /\ (isearchCur e = None -> Value (selected e) <> EmptyString ->
        GetBuffer e = (the_completed, the_compCursor, the_selection)
        /\ line_at e (GetBuffer e).1.1 = Some (e_completed e)
        /\ cursor_at e (GetBuffer e).1.2 = Some (e_compCursor e))
  /\ (isearchCur e = None -> Value (selected e) = EmptyString ->
        GetBuffer e = (the_line, the_cursor, the_selection)
        /\ line_at e (GetBuffer e).1.1 = Some (e_line e)
        /\ cursor_at e (GetBuffer e).1.2 = Some (e_cursor e))
  /\ (GetBuffer e = (the_line, the_cursor, the_selection) ->
        isearchCur e = None /\ Value (selected e) = EmptyString).
Proof.
  assert (Hlen : forall s : string, (0 <? len s) = false <-> s = EmptyString).
  { intros s. unfold len. destruct s; cbn [String.length]; split; intros Hs;
      try reflexivity; discriminate. }
  unfold GetBuffer. split; [|split; [|split]].
  - intros Hc. rewrite bool_decide_eq_true_2 by exact Hc.
    split; [|split]; reflexivity.
  - intros Hc Hv. rewrite bool_decide_eq_false_2 by (intros Hx; congruence).
    destruct (0 <? len (Value (selected e))) eqn:Hl;
      [split; [|split]; reflexivity|].
    apply Hlen in Hl. contradiction.
  - intros Hc Hv. rewrite bool_decide_eq_false_2 by (intros Hx; congruence).
    rewrite Hv. split; [|split]; reflexivity.
  - destruct (bool_decide (isearchCur e <> None)) eqn:Hd; [discriminate|].
    destruct (0 <? len (Value (selected e))) eqn:Hl; [discriminate|].
    intros _. apply bool_decide_eq_false_1 in Hd. split; [|apply Hlen, Hl].
    destruct (isearchCur e); [exfalso; apply Hd; discriminate | reflexivity].
Qed.

(** ** Completion: incremental search *)

(** With the usual escape sequences, the search prompt is not the failure
    message. *)
Lemma isearchHint_not_failed (Regexp : Type) (e : Engine Regexp) b :
  @isearchHint Regexp scenario.sgr e b <> @failed_hint scenario.sgr.
Proof. unfold isearchHint, failed_hint. cbn. discriminate. Qed.

Section IsearchFacts.

Context {Regexp : Type} {colors : color.Colors} {modes : keymap.Modes}.
Variable regexp_Compile : string -> option Regexp.
Variable IsUpper : rune -> bool.
Variable GenerateWith : option Completer -> Engine Regexp -> Engine Regexp.
Variable Matches : Engine Regexp -> Z.
Variable Select : Z -> Z -> Engine Regexp -> Engine Regexp.
Variable filter_group : Regexp -> Engine Regexp -> group -> group.

(** Without a compiled expression the groups are not filtered. *)
Lemma update_groups_nil (e : Engine Regexp) :
  isearch e = None -> update_groups filter_group e = e.
Proof.
  intros Hn. unfold update_groups.
  assert (Hgen : forall idx, Forall (fun i => (i < length (groups e))%nat) idx ->
    fold_left
      (fun e0 i =>
         match groups e0 !! i with
         | Some g =>
           set_groups (<[i := group_updateIsearch filter_group e0 g]>
                         (groups e0)) e0
         | None => e0
         end) idx e = e).
  { induction 1 as [|i idx Hi _ IH]; [reflexivity|].
    cbn [fold_left].
    destruct (groups e !! i) as [g|] eqn:Hg; [|exact IH].
    replace (group_updateIsearch filter_group e g) with g
      by (unfold group_updateIsearch; rewrite Hn; reflexivity).
    rewrite list_insert_id by exact Hg.
    replace (set_groups (groups e) e) with e by (destruct e; reflexivity).
    exact IH. }
  apply Hgen. apply Forall_forall. intros i Hi.
  apply elem_of_seq in Hi. lia.
Qed.

(** C6: when the expression does not compile, the hint receives the
    failure message, but the function goes on: the candidates are
    generated again from the cached completer and the hint is overwritten
    with the search prompt. What is left on the hint line is the search
    prompt, not the failure message. *)
Theorem updateIncrementalSearch_failure_overwritten (e : Engine Regexp)
    (b b2 : Line) :
  let e1 := GenerateWith (cached e)
              (set_e_hint (Hint_Set failed_hint (e_hint e))
                          (set_isearch None e)) in
  let e2 := update_groups filter_group e1 in
  isearchBuf e = Some b ->
  regexp_Compile (regexStr IsUpper b) = None ->
  isearchBuf e2 = Some b2 ->
  isearchInsert e2 = false ->
  exists e',
       updateIncrementalSearch regexp_Compile IsUpper GenerateWith Matches
         Select filter_group e = Ok e'
       /\ hint_text (e_hint e') = isearchHint e2 b2
       /\ groups e' = groups e2.
Proof.
  intros e1 e2 Hb Hc Hb2 Hins.
  unfold updateIncrementalSearch, deref_isearchBuf. rewrite Hb.
  cbn [mbind res_bind]. rewrite Hc.
  rewrite bool_decide_eq_true_2 by reflexivity.
  set (x := GenerateWith _ _). change x with e1. clear x. fold e2.
  cbn [isearchBuf isearchInsert set_e_hint]. rewrite Hb2.
  cbn [mbind res_bind]. rewrite Hins. cbn [andb].
  eexists. split; [reflexivity|]. split; reflexivity.
Qed.

End IsearchFacts.

(** ** Completion: aliased groups *)

Lemma map_get_insert (m : gmap string bool) k d :
  map_get (<[k := true]> m) d = true <-> k = d \/ map_get m d = true.
Proof.
  unfold map_get. destruct (decide (k = d)) as [->|Hne].
  - rewrite lookup_insert_eq. cbn. tauto.
  - rewrite lookup_insert_ne by exact Hne. split; [tauto|].
    intros [Hk|Hm]; [contradiction | exact Hm].
Qed.

Lemma map_get_empty d : map_get ∅ d = false.
Proof. unfold map_get. rewrite lookup_empty. reflexivity. Qed.

(** The map holds the non-empty descriptions found at even indices. *)
Lemma fill_oddValueMap_spec (vals : list Candidate) (i : Z)
    (m : gmap string bool) (d : string) :
  map_get (fill_oddValueMap i vals m) d = true <->
  map_get m d = true \/
  exists k c, vals !! k = Some c /\ Z.rem (i + Z.of_nat k) 2 = 0
              /\ Description c = d /\ d <> EmptyString.
Proof.
  revert i m. induction vals as [|v rest IH]; intros i m;
    cbn [fill_oddValueMap].
  - split; [tauto|]. intros [Hm | (k & c & Hk & _)]; [exact Hm|].
    rewrite lookup_nil in Hk. discriminate.
  - rewrite IH. clear IH.
    destruct (Z.eqb_spec (Z.rem i 2) 0) as [Hi|Hi];
      destruct (String.eqb_spec (Description v) "") as [Hd|Hd];
      cbn [andb negb]; rewrite ?map_get_insert.
    all: split.
    all: try (intros [Hm | (k & c & Hk & Hr & Hc & Hne)];
              [ tauto
              | right; exists (Datatypes.S k), c; cbn [lookup list_lookup];
                repeat split; try assumption;
                rewrite <- Hr; f_equal; lia ]).
    all: try (intros [[Hv|Hm] | (k & c & Hk & Hr & Hc & Hne)];
              [ right; exists 0%nat, v; cbn [lookup list_lookup];
                repeat split; try assumption; try congruence;
                rewrite <- Hi; f_equal; lia
              | tauto
              | right; exists (Datatypes.S k), c; cbn [lookup list_lookup];
                repeat split; try assumption;
                rewrite <- Hr; f_equal; lia ]).
    all: intros [Hm | (k & c & Hk & Hr & Hc & Hne)]; [tauto|].
    all: destruct k as [|k]; cbn [lookup list_lookup] in Hk.
    all: try (injection Hk as <-).
    all: try (exfalso; first [ congruence
                             | apply Hi; rewrite <- Hr; f_equal; lia ]).
    all: try (left; left; exact Hc).
    all: right; exists k, c; repeat split; try assumption;
      rewrite <- Hr; f_equal; lia.
Qed.

(** The probe succeeds on a non-empty description of the map found at an
    odd index. *)
Lemma probe_oddValueMap_spec (vals : list Candidate) (i : Z)
    (m : gmap string bool) :
  probe_oddValueMap i vals m = true <->
  exists k c, vals !! k = Some c /\ Z.rem (i + Z.of_nat k) 2 <> 0
              /\ map_get m (Description c) = true
              /\ Description c <> EmptyString.
Proof.
  revert i. induction vals as [|v rest IH]; intros i;
    cbn [probe_oddValueMap].
  - split; [discriminate|]. intros (k & c & Hk & _).
    rewrite lookup_nil in Hk. discriminate.
  - destruct (Z.eqb_spec (Z.rem i 2) 0) as [Hi|Hi];
      destruct (map_get m (Description v)) eqn:Hm;
      destruct (String.eqb_spec (Description v) "") as [Hd|Hd];
      cbn [andb negb]; rewrite ?IH.
    all: split.
    all: try (intros _; exists 0%nat, v; cbn [lookup list_lookup];
              repeat split; try assumption;
              intros Hr; apply Hi; rewrite <- Hr; f_equal; lia).
    all: try (intros (k & c & Hk & Hr & Hc & Hne);
              exists (Datatypes.S k), c; cbn [lookup list_lookup];
              repeat split; try assumption;
              intros Hr'; apply Hr; rewrite <- Hr'; f_equal; lia).
    all: try reflexivity.
    all: intros (k & c & Hk & Hr & Hc & Hne).
    all: destruct k as [|k]; cbn [lookup list_lookup] in Hk.
    all: try (injection Hk as <-).
    all: try (exfalso; first [ congruence
                             | apply Hr; rewrite <- Hi; f_equal; lia ]).
    all: exists k, c; repeat split; try assumption;
      intros Hr'; apply Hr; rewrite <- Hr'; f_equal; lia.
Qed.

(** What [completionsAreAliases] computes: some candidate at an even index
    and some candidate at an odd index share a non-empty description. Two
    candidates that share one at indices of the same parity are not
    seen. *)
Lemma completionsAreAliases_spec (vals : list Candidate) :
  completionsAreAliases vals = true <->
  exists i j ci cj,
    vals !! i = Some ci /\ vals !! j = Some cj
    /\ Nat.even i = true /\ Nat.even j = false
    /\ Description ci = Description cj /\ Description ci <> EmptyString.
Proof.
  assert (Hpar : forall k : nat, Z.rem (0 + Z.of_nat k) 2 = 0
                                 <-> Nat.even k = true).
  { intros k. rewrite Z.add_0_l, Z.rem_mod_nonneg by lia.
    destruct (Nat.Even_or_Odd k) as [[q ->]|[q ->]].
    - split; intros _; [apply Nat.even_spec; exists q; reflexivity|].
      zify. Z.div_mod_to_equations. lia.
    - split; [intros Hm; zify; Z.div_mod_to_equations; lia|].
      intros Hev. apply Nat.even_spec in Hev as [z Hz]. lia. }
  unfold completionsAreAliases. rewrite probe_oddValueMap_spec. split.
  - intros (j & cj & Hj & Hr & Hm & Hne).
    apply fill_oddValueMap_spec in Hm as [Hm | (i & ci & Hi & Hri & Hd & _)].
    { rewrite map_get_empty in Hm. discriminate. }
    exists i, j, ci, cj. repeat split; try assumption; try congruence.
    + apply Hpar, Hri.
    + destruct (Nat.even j) eqn:Hev; [|reflexivity].
      exfalso. apply Hr, Hpar, Hev.
  - intros (i & j & ci & cj & Hi & Hj & Hei & Hej & Hd & Hne).
    exists j, cj. repeat split; try assumption; try congruence.
    + intros Hr. apply Hpar in Hr. congruence.
    + apply fill_oddValueMap_spec. right. exists i, ci.
      repeat split; try assumption; try congruence. apply Hpar, Hei.
Qed.

(** ** Right prompt *)


Section PromptFacts.

Variable RealLength : string -> Z.
Variable ClearLineAfter : string.


End PromptFacts.

(** ** The main read loop *)

Section LoopFacts.

Context {World Cmd : Type} {colors : color.Colors} {modes : keymap.Modes}.
Variable effect : shell.Event Cmd -> World -> World.
Variable matchLocal : World -> Bind * option Cmd * bool.
Variable matchMain : World -> Bind * option Cmd * bool.
Variable lineAccepted : World -> bool * string * option string.
Variable resetPostRunIterations : World -> string.
Variable IsSelected : World -> string * bool.
Variable Recording : World -> bool.
Variable IsPending : World -> bool.
Variable Main : World -> string.
Variable Local : World -> string.
Variable Unescape : string -> string.

Abbreviation run :=
  (shell.run effect lineAccepted resetPostRunIterations IsSelected Recording
     IsPending Main Unescape).
Abbreviation iteration :=
  (shell.iteration effect matchLocal matchMain lineAccepted
     resetPostRunIterations IsSelected Recording IsPending Main Local
     Unescape).

Ltac trace_solver :=
  rewrite ?not_elem_of_cons, ?not_elem_of_app, ?elem_of_cons, ?elem_of_app,
    ?elem_of_nil;
  intuition (try discriminate; try reflexivity; auto using not_elem_of_nil).

Ltac unfold_loop :=
  unfold shell.iteration, shell.handleUndefined, shell.run, shell.execute,
    shell.updatePosRunHints, shell.call, shell.ask, shell.read, mbind, mret,
    shell.Act_bind, shell.Act_ret.

(** Running a command neither commits a completion nor looks at the main
    keymap. *)
Lemma run_trace (bind : Bind) (command : option Cmd) (w : World) :
  (shell.UpdateInserted ∉ (run bind command w).2)
  /\ (shell.MatchMain ∉ (run bind command w).2).
Proof.
  unfold_loop.
  destruct (Macro bind); destruct command as [c|]; cbn.
  all: repeat match goal with
              | |- context [IsSelected ?w] =>
                destruct (IsSelected w) as [register selected]; cbn
              | |- context [if ?b then _ else _] => destruct b; cbn
              end.
  all: split; trace_solver.
Qed.

(** C3, amended: in a pass of the loop the virtual completion is
    committed only when the local keymap gave no command (and the keys
    were not a prefix of a binding). When the local keymap gives a
    command, the pass neither commits the completion nor consults the
    main keymap, and it ends by returning the line when the command
    accepted it and by continuing to the next pass otherwise. *)
Theorem local_command_preempts_commit (w : World) :
  let w0 := shell.at_local_match effect w in
  let '(bind, command, prefixed) := matchLocal w0 in
  let '(out, _, trace) := iteration w in
  ((shell.UpdateInserted ∈ trace) -> command = None /\ prefixed = false)
  /\ (is_Some command ->
        (shell.UpdateInserted ∉ trace) /\ (shell.MatchMain ∉ trace)
        /\ out = if prefixed then shell.Continue
                 else let '(accepted, line, err) := (run bind command w0).1.1
                      in if accepted then shell.Return line err
                         else shell.Continue).
Proof.
  intros w0.
  pose proof (fun b c => run_trace b c w0) as Hrun.
  unfold shell.iteration, mbind, shell.Act_bind, shell.call, shell.ask.
  cbn beta iota.
  change (effect shell.MatchLocal
            (effect shell.WaitAvailableKeys
               (effect shell.Refresh
                  (effect shell.FlushUsed (effect shell.RecordKeys w)))))
    with w0.
  destruct (matchLocal w0) as [[bind command] prefixed].
  destruct prefixed.
  { cbn. split; [|intros _]; trace_solver. }
  specialize (Hrun bind command).
  destruct (run bind command w0) as [[[[accepted line] err] w1] t1] eqn:Hr.
  cbn [fst snd] in Hrun. destruct Hrun as [Hu Hm].
  cbn [fst snd].
  destruct accepted.
  { cbn. split; [|intros _]; trace_solver. }
  destruct command as [c|].
  { rewrite bool_decide_eq_true_2 by (eexists; reflexivity).
    cbn. split; [|intros _]; trace_solver. }
  rewrite bool_decide_eq_false_2 by (intros [x Hx]; discriminate).
  destruct (let '(_, _, _) := _ in _) as [[out w2] t2].
  split; [intros _; split; reflexivity|].
  intros [x Hx]. discriminate.
Qed.

End LoopFacts.

(** ** The claims on concrete states *)

Import scenario.

(** The ceiling [NewSources] settles on: [history-size] as configured, 500
    when it is set to zero, and -1 (no ceiling) when it is not set. *)
Lemma NewSources_maxEntries {S : Type} `{Source S} (mem : S) name l cur hnt o :
  maxEntries (NewSources mem name l cur hnt o)
  = if GetInt o "history-size" =? 0
    then if String.eqb (GetString o "history-size") "" then -1 else 500
    else GetInt o "history-size".
Proof.
  unfold NewSources. cbn [maxEntries].
  destruct (GetInt o "history-size" =? 0);
    destruct (String.eqb (GetString o "history-size") ""); reflexivity.
Qed.

(** With no ceiling, the line typed into an empty history is stored, and
    typing it again stores nothing more. *)
Example Write_unbounded_stores_once :
  let h := fresh 0 "" "hello" in
  let h1 := Write [default_name] false h in
  maxEntries h = -1
  /\ list_ h1 = {[ default_name := Some ["hello"%string] ]}
  /\ Write [default_name] false h1 = h1.
Proof. cbv zeta. repeat split; vm_compute; reflexivity. Qed.

(** C1: with [history-size] set to zero the ceiling is 500; the source is
    empty, so its length is strictly below the ceiling and the specification
    accepts the write; [Write] stores nothing. The guard
    [maxEntries >= Len] skips a source that has room and lets through one
    that has outgrown the ceiling. *)
Theorem Write_refused_below_ceiling :
  let h := fresh 0 "0" "hello" in
  maxEntries h = 500
  /\ list_ h = {[ default_name := Some ([] : memory) ]}
  /\ spec.accepts_write (maxEntries h) (Len ([] : memory)) = true
  /\ Write [default_name] false h = h.
Proof. cbv zeta. repeat split; vm_compute; reflexivity. Qed.

(** The same guard, past the ceiling: a source that already holds more
    lines than [history-size] allows is written. *)
Example Write_accepted_above_ceiling :
  let h := set_list {[ default_name := Some (["a"; "b"; "c"]%string : memory) ]}
                    (fresh 2 "2" "hello") in
  spec.accepts_write (maxEntries h) 3 = false
  /\ list_ (Write [default_name] false h)
     = {[ default_name := Some ["a"; "b"; "c"; "hello"]%string ]}.
Proof. cbv zeta. repeat split; vm_compute; reflexivity. Qed.

(** C2: two lines of history, "abc" typed and not yet accepted. [Walk(2)]
    then [Walk(-2)] brings [hpos] back to 0, but the line is then empty:
    the walk from 0 to 2 did not stash "abc", since [buf] is written only
    when the walk lands on [hpos = 1]. *)
Theorem Walk_two_up_two_down_loses_line :
  let h := session ["ls"; "pwd"]%string "abc" in
  (hpos h, string_of_runes (line h), buf h) = (0, "abc"%string, ""%string)
  /\ (h1 ← Walk 2 h; Ok (hpos h1, string_of_runes (line h1), buf h1))
     = Ok (2, "ls"%string, ""%string)
  /\ (h1 ← Walk 2 h; h2 ← Walk (-2) h1;
      Ok (hpos h2, string_of_runes (line h2)))
     = Ok (0, ""%string).
Proof. cbv zeta. repeat split; vm_compute; reflexivity. Qed.

(** One step up and one step down does restore the line. *)
Example Walk_one_up_one_down_restores_line :
  let h := session ["ls"; "pwd"]%string "abc" in
  (h1 ← Walk 1 h; h2 ← Walk (-1) h1;
   Ok (hpos h2, string_of_runes (line h2), cur_pos (cursor h2)))
  = Ok (0, "abc"%string, 3).
Proof. vm_compute. reflexivity. Qed.

Lemma Walk_noop_at_boundaries_witness :
  (Current at_top = Ok None \/
   exists src, Current at_top = Ok (Some src) /\
     (Len src = 0 \/ (1 < 0 /\ hpos at_top = 0)
      \/ (0 < 1 /\ hpos at_top = Len src)))
  /\ Walk 1 at_top = Ok at_top.
Proof.
  assert (Hb : Current at_top = Ok None \/
     exists src, Current at_top = Ok (Some src) /\
       (Len src = 0 \/ (1 < 0 /\ hpos at_top = 0)
        \/ (0 < 1 /\ hpos at_top = Len src))).
  { right. exists (["ls"; "pwd"]%string : memory).
    split; [reflexivity|]. right. right. split; [lia | reflexivity]. }
  split; [exact Hb|]. exact (Walk_noop_at_boundaries at_top 1 Hb).
Defined.

(** C4: "git status" is typed, the cursor stands after "git", and the
    history holds "git commit". The text between the start of the line
    and the cursor, "git", starts the history line; [InsertMatch], called
    as [historySearchBackward] calls it, tests the whole line
    "git status", finds nothing and leaves the state as it is. With "git"
    alone on the line, the same call installs "git commit". *)
Theorem InsertMatch_prefix_ignores_cursor :
  let h := set_cursor (mkCursor 3 (-1))
             (session ["git commit"%string] "git status") in
  let query := string_of_runes (take (Z.to_nat (Pos (cursor h))) (line h)) in
  let h0 := session ["git commit"%string] "git" in
  query = "git"%string
  /\ spec.candidate_matches false query "git commit" = true
  /\ candidate_matches (line h) (Some (cursor h)) false "git commit"
     = Ok false
  /\ InsertMatch (line h) (Some (cursor h)) true false false h = Ok (Some h)
  /\ (Pos (cursor h0), string_of_runes (line h0)) = (3, "git"%string)
  /\ (r ← InsertMatch (line h0) (Some (cursor h0)) true false false h0;
      Ok (option_map (fun h' => (hpos h', string_of_runes (line h'))) r))
     = Ok (Some (1, "git commit"%string)).
Proof. cbv zeta. repeat split; vm_compute; reflexivity. Qed.

(** "hello" is typed, the cursor stands at its end, and the history holds
    "Hello". The query has no uppercase letter, so the smart case of the
    specification finds the line; the substring test of [InsertMatch] is
    made byte for byte, does not find it and leaves the state as it is. *)
Example InsertMatch_is_case_sensitive :
  let h := session ["Hello"%string] "hello" in
  spec.candidate_matches true "hello" "Hello" = true
  /\ candidate_matches (line h) (Some (cursor h)) true "Hello" = Ok false
  /\ InsertMatch (line h) (Some (cursor h)) true false true h = Ok (Some h).
Proof. cbv zeta. repeat split; vm_compute; reflexivity. Qed.

(** A literal match is found and installed. *)
Example InsertMatch_finds_literal :
  let h := session ["make build"; "make test"; "make clean"]%string "test" in
  (r ← InsertMatch (line h) (Some (cursor h)) true false true h;
   Ok (option_map (fun h' => (hpos h', string_of_runes (line h'))) r))
  = Ok (Some (2, "make test"%string)).
Proof. vm_compute. reflexivity. Qed.

(** C5: "b" is accepted twice in a row. A source that numbers its
    entries as the specification does, index 0 being the most recent,
    holds "a"; each [Write] compares "b" with the entry at [Len-1], "a",
    and the line is stored twice, the second time although it is
    identical to the entry at index 0. A source that appends holds "a" at
    index 0 and "b" at index 1, and "a" is typed: the line is identical
    to the entry at index 0 and is stored as well. *)
Lemma Write_stores_line_equal_to_entry_0 :
  let h := session_recent_first ["a"]%string "b" in
  let h1 := Write [default_name] false h in
  let h2 := Write [default_name] false h1 in
  let m := session ["a"; "b"]%string "a" in
  list_ h1 = {[ default_name := Some (RecentFirst ["b"; "a"]%string) ]}
  /\ GetLine (RecentFirst ["b"; "a"]%string) 0
     = (string_of_runes (line h1), None)
  /\ list_ h2
     = {[ default_name := Some (RecentFirst ["b"; "b"; "a"]%string) ]}
  /\ GetLine (["a"; "b"]%string : memory) 0
     = (string_of_runes (line m), None)
  /\ list_ (Write [default_name] false m)
     = {[ default_name := Some (["a"; "b"; "a"]%string : memory) ]}.
Proof. cbv zeta. repeat split; vm_compute; reflexivity. Qed.

(** Over the in-memory source, "b" accepted twice in a row is stored
    once. *)
Example Write_twice_stores_once :
  let h := session ["a"]%string "b" in
  let h1 := Write [default_name] false h in
  list_ h1 = {[ default_name := Some (["a"; "b"]%string : memory) ]}
  /\ Write [default_name] false h1 = h1.
Proof. cbv zeta. repeat split; vm_compute; reflexivity. Qed.

Lemma Write_skips_repeated_last_witness :
  NoDup [default_name]
  /\ list_ (Write [default_name] false (session ["a"; "b"]%string "b"))
     = list_ (session ["a"; "b"]%string "b")
  /\ (let h := session ["a"]%string "b" in
      let h1 := Write [default_name] false h in
      let h2 := Write [default_name] false h1 in
      list_ h1 !! default_name = list_ h !! default_name
      \/ list_ h2 !! default_name = list_ h1 !! default_name).
Proof.
  split; [apply NoDup_singleton|]. split.
  - apply (proj1 (proj2 (Write_skips_repeated_last [default_name] false
             (session ["a"; "b"]%string "b")
             (NoDup_singleton default_name)))).
    intros name src Hl. cbn in Hl.
    apply lookup_singleton_Some in Hl as [_ Hs].
    injection Hs as <-. vm_compute. reflexivity.
  - apply (proj2 (proj2 (proj2 (Write_skips_repeated_last [default_name]
             false (session ["a"]%string "b")
             (NoDup_singleton default_name))))
           [default_name] false default_name (["a"]%string : memory)
           (NoDup_singleton default_name)).
    + vm_compute. reflexivity.
    + apply memory_reads_back. vm_compute. reflexivity.
Defined.

(** C6: the minibuffer holds "(", which does not compile. The hint ends up
    with the search prompt, not with the failure message. *)
Lemma updateIncrementalSearch_failure_overwritten_witness :
  compile_parens (regexStr ascii_IsUpper (runes_of_string "(")) = None
  /\ exists e',
       updateIncrementalSearch compile_parens ascii_IsUpper (fun _ e => e)
         (fun _ => 0) (fun _ _ e => e) (fun _ _ g => g) (searching "(")
       = Ok e'
       /\ hint_text (e_hint e') <> failed_hint.
Proof.
  split; [reflexivity|].
  destruct (updateIncrementalSearch_failure_overwritten
              compile_parens ascii_IsUpper (fun _ e => e) (fun _ => 0)
              (fun _ _ e => e) (fun _ _ g => g) (searching "(")
              (runes_of_string "(") (runes_of_string "(")
              eq_refl eq_refl eq_refl eq_refl)
    as (e' & Hrun & Hh & _).
  exists e'. split; [exact Hrun|]. rewrite Hh.
  apply isearchHint_not_failed.
Defined.

(** C7: "--help" and "-h" share the description "show help" (as "--verbose"
    and "-v" share theirs), and the rows built for an aliased group put
    them together; they stand at indices 0 and 2, both even, and
    [completionsAreAliases] answers no. *)
Theorem completionsAreAliases_misses_same_parity :
  spec.shares_description flags
  /\ completionsAreAliases flags = false
  /\ (createDescribedRows flags).1
     = [[cand "--help" "show help"; cand "-h" "show help"];
        [cand "--verbose" "be verbose"; cand "-v" "be verbose"]]%string.
Proof.
  split; [|split; vm_compute; reflexivity].
  exists 0%nat, 2%nat, (cand "--help" "show help"), (cand "-h" "show help").
  repeat split; try reflexivity; discriminate.
Qed.

(** Next to each other, a flag and its long form are seen. *)
Example completionsAreAliases_sees_neighbours :
  completionsAreAliases
    [cand "-h" "show help"; cand "--help" "show help";
     cand "-v" "be verbose"]%string
  = true.
Proof. vm_compute. reflexivity. Qed.


(** With no room left before the right edge, the area is cleared. *)
Example RightPrint_clears_without_room :
  RightPrint len clear_after 80 clock 76 false = Ok [clear_after].
Proof. vm_compute. reflexivity. Qed.

(** On a terminal of 20 columns with the start column at 20, a right
    prompt of 25 columns asks [strings.Repeat] for -5 blanks. *)
Example RightPrint_panics_on_wide_prompt :
  RightPrint len clear_after 20
    (mkPrompt (Some "2026-01-01 12:00:00 +0000"%string) None) 20 false
  = Panic "strings: negative Repeat count".
Proof. vm_compute. reflexivity. Qed.


(** C3: the local keymap gives the command [accept-line], which accepts
    the line. The pass does not continue to a next one: it returns the
    line. *)
Lemma local_command_accepting_returns :
  accepting_local (shell.at_local_match accepting_effect false)
  = (mkBind "accept-line" false, Some tt, false)
  /\ (accepting_iteration false).1.1 = shell.Return "ls" None.
Proof. split; vm_compute; reflexivity. Qed.

(** The calls of that pass: no completion is committed and the main keymap
    is not consulted. *)
Example local_command_accepting_trace :
  (accepting_iteration false).2
  = [shell.RecordKeys; shell.FlushUsed; shell.Refresh;
     shell.WaitAvailableKeys; shell.MatchLocal; shell.GetBuffer;
     shell.Command tt; shell.RunPending; shell.CheckAppend;
     shell.ResetPostRunIterations; shell.HintResetPersist;
     shell.UpdateIsearch; shell.GetBuffer;
     shell.SaveWithCommand (mkBind "accept-line" false);
     shell.LineAccepted].
Proof. vm_compute. reflexivity. Qed.
